(** * Reasoning-tag extraction and rendering

    A shallow embedding of [ThinkingTokenProcessor] (thinking_tokens_demo.py)
    and of the block-removal loop of [test_remove_details_functionality]
    (test_thinking_tokens.py), with the properties of the specification
    stated and proved about them.

    A Python [str] is a sequence of Unicode code points: it is modelled as a
    list of code points.  The three regular expressions of the source are
    modelled by matchers written for their shape, each one following the
    order in which the backtracking engine of [re] explores its pattern. *)

From Stdlib Require Import Ascii String DecimalString.
From Stdlib Require Import List NArith ZArith Bool Arith Lia.
Import ListNotations.
Local Open Scope list_scope.

(** ** Python strings *)

Definition char := N.
Definition text := list char.

(** An ASCII literal of the source, as a sequence of code points. *)
Definition u (s : string) : text := map N_of_ascii (list_ascii_of_string s).
Arguments u s%_string.

Definition nl : text := [10%N].
Definition dq : text := [34%N].

Definition char_eqb (a b : char) : bool := N.eqb a b.

Fixpoint text_eqb (a b : text) : bool :=
  match a, b with
  | [], [] => true
  | x :: a', y :: b' => char_eqb x y && text_eqb a' b'
  | _, _ => false
  end.

Definition nonempty (s : text) : bool :=
  match s with [] => false | _ :: _ => true end.

(** [str.isspace] on one code point; the class [\s] of [re] on a [str]
    pattern is the same set. *)
Definition whitespace_code_points : list char :=
  [9; 10; 11; 12; 13; 28; 29; 30; 31; 32; 133; 160; 5760;
   8192; 8193; 8194; 8195; 8196; 8197; 8198; 8199; 8200; 8201; 8202;
   8232; 8233; 8239; 8287; 12288]%N.

Definition isspace (c : char) : bool := existsb (char_eqb c) whitespace_code_points.

(** [str.strip()] *)
Fixpoint lstrip (s : text) : text :=
  match s with
  | [] => []
  | c :: s' => if isspace c then lstrip s' else s
  end.

Definition rstrip (s : text) : text := rev (lstrip (rev s)).

Definition strip (s : text) : text := rstrip (lstrip s).

(** [s.startswith(prefix)] *)
Fixpoint startswith (s prefix : text) : bool :=
  match prefix, s with
  | [], _ => true
  | p :: prefix', c :: s' => char_eqb p c && startswith s' prefix'
  | _ :: _, [] => false
  end.

(** [s.replace(old, new)]: the occurrences of [old] are taken from left to
    right and do not overlap.  [skip] counts the characters of an occurrence
    that are still to be passed over. *)
Fixpoint replace_from (old new : text) (skip : nat) (s : text) : text :=
  match s with
  | [] => []
  | c :: s' =>
      match skip with
      | S k => replace_from old new k s'
      | O =>
          if startswith s old
          then new ++ replace_from old new (pred (length old)) s'
          else c :: replace_from old new 0 s'
      end
  end.

Definition replace (s old new : text) : text :=
  match old with
  | [] => new ++ flat_map (fun c => c :: new) s
  | _ :: _ => replace_from old new 0 s
  end.

(** [sep.join(parts)] *)
Fixpoint join (sep : text) (parts : list text) : text :=
  match parts with
  | [] => []
  | p :: rest =>
      match rest with
      | [] => p
      | _ :: _ => p ++ sep ++ join sep rest
      end
  end.

(** [str.splitlines()]: the line boundaries of Python, with "\r\n" taken as
    one boundary and no empty last line after a final boundary. *)
Definition line_boundaries : list char :=
  [10; 11; 12; 13; 28; 29; 30; 133; 8232; 8233]%N.

Definition is_linebreak (c : char) : bool := existsb (char_eqb c) line_boundaries.

Fixpoint splitlines_from (line : text) (s : text) : list text :=
  match s with
  | [] => match line with [] => [] | _ :: _ => [line] end
  | c :: s' =>
      if is_linebreak c then
        if char_eqb c 13%N then
          match s' with
          | d :: s'' =>
              if char_eqb d 10%N
              then line :: splitlines_from [] s''
              else line :: splitlines_from [] s'
          | [] => line :: splitlines_from [] s'
          end
        else line :: splitlines_from [] s'
      else splitlines_from (line ++ [c]) s'
  end.

Definition splitlines (s : text) : list text := splitlines_from [] s.

(** [str(n)] for an [int], as an f-string prints it. *)
Definition str_of_int (n : Z) : text := u (NilEmpty.string_of_int (Z.to_int n)).

(** ** The [re] module on the patterns of the source *)

(** Letter case under [re.IGNORECASE] on a [str] pattern.  Every code point
    is sent to the representative of its class; the classes are those of
    CPython for the ASCII letters (two code points outside ASCII lower to
    one, U+0130 to "i" and U+212A to "k", and the engine adds U+0131 to the
    class of "i" and U+017F to the class of "s") and for U+00E2.  No other
    cased character occurs in a pattern of the source, so that other code
    points stand for themselves. *)
Definition casefold (c : char) : char :=
  if (65 <=? c)%N && (c <=? 90)%N then (c + 32)%N
  else if (c =? 194)%N then 226%N
  else if (c =? 304)%N || (c =? 305)%N then 105%N
  else if (c =? 383)%N then 115%N
  else if (c =? 8490)%N then 107%N
  else c.

(** A literal character [p] of a pattern against the character [c] of the
    subject. *)
Definition ignorecase_eq (p c : char) : bool := char_eqb (casefold p) (casefold c).

(** A literal (what [re.escape] makes of a string) at the head of [s]:
    the part of [s] it matched and what follows. *)
Fixpoint match_literal (lit s : text) : option (text * text) :=
  match lit with
  | [] => Some ([], s)
  | p :: lit' =>
      match s with
      | [] => None
      | c :: s' =>
          if ignorecase_eq p c then
            match match_literal lit' s' with
            | Some (m, rest) => Some (c :: m, rest)
            | None => None
            end
          else None
      end
  end.

(** [(.*?)lit] under [re.DOTALL]: the lazy star first tries to stop, and
    takes one more character (any character, a newline too) only when the
    literal does not follow.  The result is the captured group, the text the
    literal matched and what follows. *)
Fixpoint match_lazy_until (lit s : text) : option (text * text * text) :=
  match match_literal lit s with
  | Some (m, rest) => Some ([], m, rest)
  | None =>
      match s with
      | [] => None
      | c :: s' =>
          match match_lazy_until lit s' with
          | Some (g, m, rest) => Some (c :: g, m, rest)
          | None => None
          end
      end
  end.

(** A match object: [group(0)] and [group(1)]. *)
Record re_match := { group0 : text; group1 : text }.

(** The pattern [re.escape(start_tag)(.*?)re.escape(end_tag)] at the head
    of [s]. *)
Definition match_tag_pattern (start_tag end_tag s : text) : option re_match :=
  match match_literal start_tag s with
  | None => None
  | Some (m_start, after_start) =>
      match match_lazy_until end_tag after_start with
      | None => None
      | Some (g, m_end, _) =>
          Some {| group0 := m_start ++ g ++ m_end; group1 := g |}
      end
  end.

(** [re.finditer(pattern, s, re.DOTALL | re.IGNORECASE)]: the leftmost match,
    then the leftmost one after its end, and so on.  A match of this pattern
    is never empty, as the start literals are not. *)
Fixpoint finditer_from (start_tag end_tag : text) (skip : nat) (s : text)
  : list re_match :=
  match s with
  | [] => []
  | _ :: s' =>
      match skip with
      | S k => finditer_from start_tag end_tag k s'
      | O =>
          match match_tag_pattern start_tag end_tag s with
          | Some m =>
              m :: finditer_from start_tag end_tag (pred (length (group0 m))) s'
          | None => finditer_from start_tag end_tag 0 s'
          end
      end
  end.

Definition finditer (start_tag end_tag s : text) : list re_match :=
  finditer_from start_tag end_tag 0 s.

(** The greedy [\s*\n] at the head of [s]: the number of characters of the
    longest run of whitespace that ends in a newline.  The star takes the
    whole run and gives characters back until a newline is the last one. *)
Fixpoint match_spaces_newline (s : text) : option nat :=
  match s with
  | [] => None
  | c :: s' =>
      if isspace c then
        match match_spaces_newline s' with
        | Some n => Some (S n)
        | None => if char_eqb c 10%N then Some 1 else None
        end
      else None
  end.

(** [re.sub(r'\n\s*\n', '\n\n', s)] *)
Fixpoint sub_blank_lines_from (skip : nat) (s : text) : text :=
  match s with
  | [] => []
  | c :: s' =>
      match skip with
      | S k => sub_blank_lines_from k s'
      | O =>
          if char_eqb c 10%N then
            match match_spaces_newline s' with
            | Some n => 10%N :: 10%N :: sub_blank_lines_from n s'
            | None => c :: sub_blank_lines_from 0 s'
            end
          else c :: sub_blank_lines_from 0 s'
      end
  end.

Definition sub_blank_lines (s : text) : text := sub_blank_lines_from 0 s.

(** ** ThinkingTokenProcessor *)

Definition DEFAULT_REASONING_TAGS : list (text * text) :=
  [ (u "<think>", u "</think>");
    (u "<thinking>", u "</thinking>");
    (u "<reason>", u "</reason>");
    (u "<reasoning>", u "</reasoning>");
    (u "<thought>", u "</thought>");
    (u "<Thought>", u "</Thought>");
    (u "<|begin_of_thought|>", u "<|end_of_thought|>");
    (* the last pair as the source file spells it: U+00E2 U+2014 "think"
       U+00E2 U+2013 U+00B7, and the same with "/think" *)
    ([226; 8212]%N ++ u "think" ++ [226; 8211; 183]%N,
     [226; 8212]%N ++ u "/think" ++ [226; 8211; 183]%N) ].

(** A value read from the clock: the result of call number [clock_call] of
    [time.time()] within one run of the detector, plus [added_seconds]. *)
Record timestamp := { clock_call : nat; added_seconds : Z }.

Record block := {
  type : text;
  start_tag : text;
  end_tag : text;
  content : text;
  started_at : timestamp;
  ended_at : timestamp;
  duration : Z;
  original_match : text
}.

(** The dictionary that [detect_reasoning_tags] appends for a match.  Each
    one reads the clock twice: the block appended when [index] blocks are
    there already makes the calls number [2 * index] and [2 * index + 1]. *)
Definition reasoning_block (start_tag end_tag reasoning_content matched : text)
  (index : nat) : block :=
  {| type := u "reasoning";
     start_tag := start_tag;
     end_tag := end_tag;
     content := reasoning_content;
     started_at := {| clock_call := 2 * index; added_seconds := 0 |};
     ended_at := {| clock_call := 2 * index + 1; added_seconds := 1 |};
     duration := 1;
     original_match := matched |}.

(** The body of the inner loop of [detect_reasoning_tags] for one match. *)
Definition append_block (start_tag end_tag : text) (blocks : list block)
  (m : re_match) : list block :=
  let reasoning_content :=
    if nonempty (group1 m) then strip (group1 m) else [] in
  if nonempty reasoning_content then
    blocks ++
    [reasoning_block start_tag end_tag reasoning_content (group0 m) (length blocks)]
  else blocks.

(** The inner loop, over the matches of one pair of tags. *)
Definition scan_tags (content : text) (blocks : list block) (tags : text * text)
  : list block :=
  fold_left (append_block (fst tags) (snd tags))
    (finditer (fst tags) (snd tags) content) blocks.

Definition detect_reasoning_tags (content : text) : list block :=
  fold_left (scan_tags content) DEFAULT_REASONING_TAGS [].

Record processed := {
  main_content : text;
  reasoning_blocks : list block;
  total_reasoning_time : Z
}.

Definition process_content (content : text) : processed :=
  let reasoning_blocks := detect_reasoning_tags content in
  let processed_content :=
    fold_left (fun acc b => replace acc (original_match b) [])
      reasoning_blocks content in
  let processed_content := strip (sub_blank_lines processed_content) in
  {| main_content := processed_content;
     reasoning_blocks := reasoning_blocks;
     total_reasoning_time := fold_left Z.add (map duration reasoning_blocks) 0%Z |}.

Definition format_line (line : text) : text :=
  if negb (startswith line (u ">")) then u "> " ++ line else line.

Definition summary_text (duration : Z) : text :=
  u "Thought for " ++ str_of_int duration ++ u " second"
    ++ (if negb (duration =? 1)%Z then u "s" else []).

Definition html_block (b : block) : text :=
  let formatted_reasoning := join nl (map format_line (splitlines (content b))) in
  u "<details type=" ++ dq ++ u "reasoning" ++ dq ++ u " done=" ++ dq ++ u "true" ++ dq
    ++ u " duration=" ++ dq ++ str_of_int (duration b) ++ dq ++ u ">" ++ nl
    ++ u "<summary>" ++ summary_text (duration b) ++ u "</summary>" ++ nl
    ++ formatted_reasoning ++ nl
    ++ u "</details>".

Definition generate_html_output (processed_data : processed) : text :=
  let html_parts := map html_block (reasoning_blocks processed_data) in
  let html_parts :=
    if nonempty (main_content processed_data)
    then html_parts ++ [main_content processed_data]
    else html_parts in
  join (nl ++ nl) html_parts.

(** What a call of the renderer does: it returns a document or raises.
    [generate_html_output] has no [raise] and calls only operations on
    [str] that cannot fail on the fields of a block. *)
Inductive outcome :=
| Returned (document : text)
| Raised (condition : text).

Definition call_generate_html_output (processed_data : processed) : outcome :=
  Returned (generate_html_output processed_data).

(** ** Removal of rendered blocks (test_remove_details_functionality) *)

(** The longest prefix of [s] whose characters satisfy [f], and the rest: a
    greedy star over a character class. *)
Fixpoint span_class (f : char -> bool) (s : text) : text * text :=
  match s with
  | [] => ([], [])
  | c :: s' =>
      if f c then let (taken, rest) := span_class f s' in (c :: taken, rest)
      else ([], s)
  end.

Definition not_gt (c : char) : bool := negb (char_eqb c 62%N).

(** The pattern [<details\s+type="{type_name}"[^>]*>.*?</details>] at the
    head of [s], for a [type_name] without metacharacters; the result is the
    matched text.  Neither greedy part can succeed by giving characters
    back: what follows [\s+] begins with the letter "t", which no whitespace
    matches, and what follows [[^>]*] is ">" itself. *)
Definition match_details_pattern (type_name s : text) : option text :=
  match match_literal (u "<details") s with
  | None => None
  | Some (m_open, r1) =>
      match span_class isspace r1 with
      | ([], _) => None
      | (spaces, r2) =>
          match match_literal (u "type=" ++ dq ++ type_name ++ dq) r2 with
          | None => None
          | Some (m_type, r3) =>
              match span_class not_gt r3 with
              | (_, []) => None
              | (attrs, gt :: r4) =>
                  match match_lazy_until (u "</details>") r4 with
                  | None => None
                  | Some (body, m_close, _) =>
                      Some (m_open ++ spaces ++ m_type ++ attrs ++ gt :: body ++ m_close)
                  end
              end
          end
      end
  end.

(** [re.sub(pattern, '', s, flags=re.DOTALL | re.IGNORECASE)] *)
Fixpoint sub_details_from (type_name : text) (skip : nat) (s : text) : text :=
  match s with
  | [] => []
  | c :: s' =>
      match skip with
      | S k => sub_details_from type_name k s'
      | O =>
          match match_details_pattern type_name s with
          | Some m => sub_details_from type_name (pred (length m)) s'
          | None => c :: sub_details_from type_name 0 s'
          end
      end
  end.

(** The loop of the test over [types_to_remove]. *)
Definition remove_details (types_to_remove : list text) (content : text) : text :=
  fold_left (fun content type_name => sub_details_from type_name 0 content)
    types_to_remove content.

(** ** Occurrences of a literal *)

(** Does the literal match at the head of [s]? *)
Definition starts_ci (lit s : text) : bool :=
  match match_literal lit s with Some _ => true | None => false end.

(** Does it match anywhere in [s]? *)
Fixpoint occurs_ci (lit s : text) : bool :=
  starts_ci lit s ||
  match s with
  | [] => false
  | _ :: s' => occurs_ci lit s'
  end.

(** [v] is the literal up to letter case. *)
Definition ci_variant (lit v : text) : Prop := match_literal lit v = Some (v, []).

(** The literal and the text differ at a position that both have. *)
Fixpoint clash (lit t : text) : bool :=
  match lit, t with
  | p :: lit', c :: t' => if ignorecase_eq p c then clash lit' t' else true
  | _, _ => false
  end.

(** No proper suffix of the literal can match where [t] begins, and the
    literal cannot match anywhere inside [t], whatever follows [t]. *)
Fixpoint all_suffixes (f : text -> bool) (s : text) : bool :=
  match s with
  | [] => true
  | _ :: s' => f s && all_suffixes f s'
  end.

Definition suffix_clash (lit t : text) : bool :=
  all_suffixes (fun suffix => clash suffix t) (tl lit).

Definition dead_in (lit t : text) : bool :=
  all_suffixes (fun suffix => clash lit suffix) t.

(** Exact occurrences, as [str.replace] and [in] see them. *)
Fixpoint occurs (lit s : text) : bool :=
  startswith s lit ||
  match s with
  | [] => false
  | _ :: s' => occurs lit s'
  end.

(** The literals of the marker table. *)
Definition marker_literals : list text :=
  flat_map (fun tags => [fst tags; snd tags]) DEFAULT_REASONING_TAGS.

(** No marker literal occurs in [s], up to letter case. *)
Definition marker_free (s : text) : bool :=
  forallb (fun lit => negb (occurs_ci lit s)) marker_literals.

(** A start literal followed, somewhere later, by its end literal. *)
Definition has_span (start_tag end_tag s : text) : Prop :=
  exists pre m_start g m_end post,
    s = pre ++ m_start ++ g ++ m_end ++ post /\
    ci_variant start_tag m_start /\ ci_variant end_tag m_end.

(** No match of the literal starts inside [x] when [y] follows. *)
Fixpoint quiet_before (lit x y : text) : bool :=
  match x with
  | [] => true
  | _ :: x' => negb (starts_ci lit (x ++ y)) && quiet_before lit x' y
  end.

(** [x] is a substring of [s]. *)
Definition contains (s x : text) : Prop := exists pre post, s = pre ++ x ++ post.

(** The matched text of block [b] lies at [offset] in [source]; two such
    regions intersect. *)
Definition span_at (source : text) (offset : nat) (b : block) : Prop :=
  firstn (length (original_match b)) (skipn offset source) = original_match b.

Definition ranges_intersect (offset1 : nat) (b1 : block) (offset2 : nat) (b2 : block)
  : Prop :=
  offset1 < offset2 + length (original_match b2) /\
  offset2 < offset1 + length (original_match b1).

(** [v] is the literal up to letter case, as a test. *)
Definition is_variant (lit v : text) : bool :=
  match match_literal lit v with
  | Some (_, []) => true
  | _ => false
  end.

(** The first character of the literal matches no whitespace. *)
Definition head_not_space (lit : text) : bool :=
  match lit with
  | [] => false
  | p :: _ => forallb (fun w => negb (ignorecase_eq p w)) whitespace_code_points
  end.

(** How the pattern of [tags'] meets the bare literals of [tags]: it matches
    both of them, or its start literal can start in neither. *)
Definition meets (tags' tags : text * text) : bool :=
  head_not_space (fst tags') && head_not_space (snd tags') &&
  ((is_variant (fst tags') (fst tags) && is_variant (snd tags') (snd tags))
   || (dead_in (fst tags') (fst tags) && dead_in (fst tags') (snd tags))).

(** No literal of the table overlaps itself: none of its proper suffixes
    matches its beginning. *)
Definition table_unbordered : bool :=
  forallb (fun tags => suffix_clash (fst tags) (fst tags)
                       && suffix_clash (snd tags) (snd tags))
    DEFAULT_REASONING_TAGS.

(** No marker literal other than those of [tags] occurs in [s], letter for
    letter. *)
Definition no_other_literal (tags : text * text) (s : text) : bool :=
  forallb (fun lit => text_eqb lit (fst tags) || text_eqb lit (snd tags)
                      || negb (occurs lit s))
    marker_literals.

Definition tags_eq_dec (a b : text * text) : {a = b} + {a <> b}.
Proof. repeat decide equality. Defined.

(** The characters of a text that are not whitespace, in their order. *)
Definition visible (s : text) : text := filter (fun c => negb (isspace c)) s.

(** No character of the literal matches a whitespace. *)
Definition spaceless (lit : text) : bool :=
  forallb (fun p => forallb (fun w => negb (ignorecase_eq p w)) whitespace_code_points)
    lit.

(** No pair of the table has an occurrence in [s]: a start literal followed
    later by the end literal of the same pair, up to letter case. *)
Definition no_span (s : text) : Prop :=
  forall tags, In tags DEFAULT_REASONING_TAGS -> ~ has_span (fst tags) (snd tags) s.

(** The literal can neither start inside one of the two tags of the pair
    nor end inside one, whatever the text around them. *)
Definition apart (lit : text) (tags : text * text) : bool :=
  suffix_clash lit (fst tags) && dead_in lit (fst tags) &&
  suffix_clash lit (snd tags) && dead_in lit (snd tags).

(** Two pairs of the table, and the text of a span. *)
Definition thinking_tags : text * text := (u "<thinking>", u "</thinking>").
Definition reasoning_tags : text * text := (u "<reasoning>", u "</reasoning>").

Definition span_text (tags : text * text) (c : text) : text :=
  fst tags ++ c ++ snd tags.

(** *** Documents with rendered blocks *)

(** A rendered block as the pattern of the removal reads it: the opening
    "<details", whitespace, the attribute [type="name"], other attributes,
    ">", a body, and the closing "</details>". *)
Record details_block := {
  d_open : text;
  d_gap : text;
  d_type : text;
  d_attrs : text;
  d_body : text;
  d_close : text
}.

Definition block_text (b : details_block) : text :=
  d_open b ++ d_gap b ++ d_type b ++ d_attrs b ++ 62%N :: d_body b ++ d_close b.

Definition type_literal (name : text) : text := u "type=" ++ dq ++ name ++ dq.

(** The block is one of type [name]: its tags and its type are written in
    any letter case, its other attributes have no ">", and neither they nor
    the body hold the opening of another block or, for the body, a
    closing. *)
Definition well_formed_block (name : text) (b : details_block) : Prop :=
  ci_variant (u "<details") (d_open b) /\
  d_gap b <> [] /\ forallb isspace (d_gap b) = true /\
  ci_variant (type_literal name) (d_type b) /\
  forallb not_gt (d_attrs b) = true /\
  occurs_ci (u "<details") (d_attrs b) = false /\
  occurs_ci (u "<details") (d_body b) = false /\
  occurs_ci (u "</details>") (d_body b) = false /\
  ci_variant (u "</details>") (d_close b).

(** A document: plain text and blocks, in any order. *)
Inductive segment :=
| Plain (t : text)
| Details (name : text) (b : details_block).

Definition segment_text (s : segment) : text :=
  match s with
  | Plain t => t
  | Details _ b => block_text b
  end.

Definition plain_part (s : segment) : text :=
  match s with
  | Plain t => t
  | Details _ _ => []
  end.

Definition text_of (segs : list segment) : text := flat_map segment_text segs.

(** The plain text of the document, in its order. *)
Definition plain_of (segs : list segment) : text := flat_map plain_part segs.

Definition well_formed_segment (s : segment) : Prop :=
  match s with
  | Plain _ => True
  | Details name b =>
      (name = u "reasoning" \/ name = u "code_interpreter") /\
      well_formed_block name b
  end.

(** The blocks are of the two types and well formed, and the plain text
    holds no opening of a block. *)
Definition well_formed (segs : list segment) : Prop :=
  occurs_ci (u "<details") (plain_of segs) = false /\
  Forall well_formed_segment segs.

(** The document without its blocks of one type. *)
Definition keeps (name : text) (s : segment) : bool :=
  match s with
  | Plain _ => true
  | Details n _ => negb (text_eqb n name)
  end.

Definition drop_type (name : text) (segs : list segment) : list segment :=
  filter (keeps name) segs.

(** The plain segments at the head of a document, and what follows them. *)
Fixpoint leading_plain (segs : list segment) : text :=
  match segs with
  | Plain t :: segs' => t ++ leading_plain segs'
  | _ => []
  end.

Fixpoint after_plain (segs : list segment) : list segment :=
  match segs with
  | Plain _ :: segs' => after_plain segs'
  | _ => segs
  end.

(** The content of [test_remove_details_functionality], as a document. *)
Definition indent : text := u "        ".

Definition test_reasoning_block : details_block :=
  {| d_open := u "<details";
     d_gap := u " ";
     d_type := u "type=" ++ dq ++ u "reasoning" ++ dq;
     d_attrs := u " done=" ++ dq ++ u "true" ++ dq;
     d_body := nl ++ indent ++ u "<summary>Reasoning</summary>" ++ nl
               ++ indent ++ u "This should be removed." ++ nl ++ indent;
     d_close := u "</details>" |}.

Definition test_code_block : details_block :=
  {| d_open := u "<details";
     d_gap := u " ";
     d_type := u "type=" ++ dq ++ u "code_interpreter" ++ dq;
     d_attrs := u " done=" ++ dq ++ u "false" ++ dq;
     d_body := nl ++ indent ++ u "<summary>Code</summary>" ++ nl
               ++ indent ++ u "This should also be removed." ++ nl ++ indent;
     d_close := u "</details>" |}.

Definition test_document : list segment :=
  [ Plain (nl ++ indent ++ u "Some content before." ++ nl ++ indent);
    Details (u "reasoning") test_reasoning_block;
    Plain (nl ++ indent ++ u "Some content after." ++ nl ++ indent);
    Details (u "code_interpreter") test_code_block;
    Plain (nl ++ indent ++ u "Final content." ++ nl ++ indent) ].

(** Every match of [\n\s*\n] in the text is two newlines and nothing
    else. *)
Fixpoint settled (s : text) : bool :=
  match s with
  | [] => true
  | c :: s' =>
      (if char_eqb c 10%N then
         match match_spaces_newline s' with
         | Some n => Nat.eqb n 1
         | None => true
         end
       else true) && settled s'
  end.

(** The text holds no line boundary. *)
Definition linebreak_free (s : text) : bool :=
  forallb (fun c => negb (is_linebreak c)) s.

(** The first two lines of a rendered block. *)
Definition details_line (duration : Z) : text :=
  u "<details type=" ++ dq ++ u "reasoning" ++ dq ++ u " done=" ++ dq ++ u "true" ++ dq
    ++ u " duration=" ++ dq ++ str_of_int duration ++ dq ++ u ">".

Definition summary_line (duration : Z) : text :=
  u "<summary>" ++ summary_text duration ++ u "</summary>".

(** A type name that is a literal in the pattern of the removal: letters,
    digits and "_" only, no metacharacter of [re]. *)
Definition word_char (c : char) : bool :=
  ((48 <=? c)%N && (c <=? 57)%N) || ((65 <=? c)%N && (c <=? 90)%N)
  || ((97 <=? c)%N && (c <=? 122)%N) || (c =? 95)%N.

Definition plain_name (name : text) : bool := forallb word_char name.

(** The texts [ms] lie in [s] one after the other, in their order, without
    overlapping. *)
Inductive laid_out : list text -> text -> Prop :=
| laid_out_nil s : laid_out [] s
| laid_out_cons pre m ms rest :
    laid_out ms rest -> laid_out (m :: ms) (pre ++ m ++ rest).

(** The fields of a block that come from the text, and the same for a
    match of a pair. *)
Definition span_fields (b : block) : text * text * text * text :=
  (start_tag b, end_tag b, content b, original_match b).

Definition match_fields (tags : text * text) (m : re_match)
  : text * text * text * text :=
  (fst tags, snd tags, strip (group1 m), group0 m).

Definition nonblank (m : re_match) : bool := nonempty (strip (group1 m)).

(** The matches of a pair that give a block. *)
Definition kept_matches (content : text) (tags : text * text) : list re_match :=
  filter nonblank (finditer (fst tags) (snd tags) content).

(** The blocks of one pair among the blocks. *)
Definition has_tags (tags : text * text) (b : block) : bool :=
  if tags_eq_dec (start_tag b, end_tag b) tags then true else false.

(** ** The reading loop of interactive_demo *)

(** A call of [input()]: it returns the line typed, without its newline, or
    raises [KeyboardInterrupt]; when the input is at its end it raises
    [EOFError]. *)
Inductive console_event : Type :=
| Typed (line : text)
| Interrupt.

(** How the inner loop ends: by [break], with the lines read and the input
    that is left; by [return] at a quit line; by [return] in the handler of
    [KeyboardInterrupt]; or with the [EOFError] that no handler catches. *)
Inductive reading : Type :=
| Entered (lines : list text) (rest : list console_event)
| Quit
| Exiting
| EndOfInput.

(** [lines and lines[-1] == ""] *)
Definition last_is_empty (lines : list text) : bool :=
  match lines with
  | [] => false
  | _ :: _ => text_eqb (last lines []) []
  end.

(** [line.lower() == 'quit'].  [str.lower] maps every code point to one or
    more code points, and the code points it maps to one of q, u, i, t alone
    are these letters and their capitals (U+0130 gives i and U+0307). *)
Definition lowers_to (c letter : char) : bool :=
  char_eqb c letter || char_eqb c (letter - 32)%N.

Definition lower_is_quit (line : text) : bool :=
  match line with
  | [q; v; i; t] =>
      lowers_to q 113%N && lowers_to v 117%N && lowers_to i 105%N
      && lowers_to t 116%N
  | _ => false
  end.

Fixpoint read_lines (lines : list text) (input : list console_event) : reading :=
  match input with
  | [] => EndOfInput
  | Interrupt :: _ => Exiting
  | Typed line :: rest =>
      if text_eqb line [] && last_is_empty lines then Entered lines rest
      else if lower_is_quit line then Quit
      else read_lines (lines ++ [line]) rest
  end.

(** ["\n".join(lines[:-1])] *)
Definition entered_content (lines : list text) : text :=
  join nl (removelast lines).

(** The test [if not content.strip(): continue] lets the content through. *)
Definition is_processed (content : text) : bool := nonempty (strip content).

(** No two empty lines follow each other. *)
Fixpoint no_empty_pair (lines : list text) : bool :=
  match lines with
  | [] => true
  | a :: rest =>
      match rest with
      | [] => true
      | b :: _ => negb (text_eqb a [] && text_eqb b []) && no_empty_pair rest
      end
  end.

Definition no_quit_line (lines : list text) : bool :=
  forallb (fun line => negb (lower_is_quit line)) lines.

Definition blank_line (line : text) : bool := forallb isspace line.

(** *** A normalized text, in the words of the specification *)

(** Leading and trailing whitespace is trimmed: the text neither begins nor
    ends with a whitespace. *)
Definition trimmed (s : text) : Prop :=
  (forall c t, s = c :: t -> isspace c = false) /\
  (forall t c, s = t ++ [c] -> isspace c = false).

(** Runs of blank lines are collapsed to one: between two newlines of the
    text there is never whitespace only, so that a blank line is empty and
    no two blank lines follow each other. *)
Definition blank_lines_collapsed (s : text) : Prop :=
  forall pre ws post,
    s = pre ++ 10%N :: ws ++ 10%N :: post ->
    forallb isspace ws = true -> ws = [].

(** ** Facts about strings and patterns *)

Lemma char_eqb_eq (a b : char) : char_eqb a b = true <-> a = b.
Proof. apply N.eqb_eq. Qed.

Lemma char_eqb_refl (a : char) : char_eqb a a = true.
Proof. apply N.eqb_refl. Qed.

Lemma ignorecase_eq_refl (c : char) : ignorecase_eq c c = true.
Proof. apply char_eqb_refl. Qed.

Lemma ignorecase_eq_sym (a b : char) : ignorecase_eq a b = ignorecase_eq b a.
Proof. apply N.eqb_sym. Qed.

Lemma ignorecase_eq_trans (a b c : char) :
  ignorecase_eq a b = true -> ignorecase_eq b c = true -> ignorecase_eq a c = true.
Proof.
  unfold ignorecase_eq. rewrite !char_eqb_eq. congruence.
Qed.

Lemma match_literal_split lit : forall s m rest,
  match_literal lit s = Some (m, rest) ->
  s = m ++ rest /\ length m = length lit /\ ci_variant lit m.
Proof.
  unfold ci_variant.
  induction lit as [|p lit IH]; intros s m rest H; simpl in H.
  - inversion H; subst. auto.
  - destruct s as [|c s']; [discriminate|].
    destruct (ignorecase_eq p c) eqn:Hpc; [|discriminate].
    destruct (match_literal lit s') as [[m' r']|] eqn:Hm; [|discriminate].
    inversion H; subst. destruct (IH _ _ _ Hm) as (-> & Hlen & Hv).
    simpl. rewrite Hpc, Hv. auto.
Qed.

Lemma match_literal_app lit : forall m z,
  ci_variant lit m -> match_literal lit (m ++ z) = Some (m, z).
Proof.
  unfold ci_variant.
  induction lit as [|p lit IH]; intros m z H; simpl in H.
  - inversion H; subst. reflexivity.
  - destruct m as [|c m']; [discriminate|]. simpl.
    destruct (ignorecase_eq p c); [|discriminate].
    destruct (match_literal lit m') as [[m'' r']|] eqn:Hm; [|discriminate].
    inversion H; subst. rewrite (IH m' z Hm). reflexivity.
Qed.

Lemma ci_variant_refl lit : ci_variant lit lit.
Proof.
  unfold ci_variant. induction lit as [|p lit IH]; simpl; [reflexivity|].
  rewrite ignorecase_eq_refl, IH. reflexivity.
Qed.

Lemma ci_variant_length lit v : ci_variant lit v -> length v = length lit.
Proof. intros H. apply match_literal_split in H. tauto. Qed.

Lemma variant_nonempty lit v : lit <> [] -> ci_variant lit v -> v <> [].
Proof.
  intros Hl Hv E. apply ci_variant_length in Hv. rewrite E in Hv.
  destruct lit; [contradiction|discriminate].
Qed.

Lemma starts_ci_true lit s :
  starts_ci lit s = true <-> exists m rest, match_literal lit s = Some (m, rest).
Proof.
  unfold starts_ci. destruct (match_literal lit s) as [[m r]|]; split; intros H.
  - eauto.
  - reflexivity.
  - discriminate.
  - destruct H as (m & r & H). discriminate.
Qed.

Lemma starts_ci_false lit s : starts_ci lit s = false <-> match_literal lit s = None.
Proof.
  unfold starts_ci. destruct (match_literal lit s) as [[m r]|]; split; congruence.
Qed.

Lemma starts_ci_cons p lit c s :
  starts_ci (p :: lit) (c :: s) = ignorecase_eq p c && starts_ci lit s.
Proof.
  unfold starts_ci. simpl. destruct (ignorecase_eq p c); [|reflexivity].
  destruct (match_literal lit s) as [[m r]|]; reflexivity.
Qed.

(** A match at the head of [x ++ y] lies within [x], or [x] is shorter than
    the literal and the rest of the literal matches at the head of [y]. *)
Lemma starts_ci_app lit : forall x y,
  starts_ci lit (x ++ y) = true ->
  starts_ci lit x = true \/
  (length x < length lit /\ starts_ci (skipn (length x) lit) y = true).
Proof.
  induction lit as [|p lit IH]; intros x y H.
  - left. reflexivity.
  - destruct x as [|c x'].
    + right. simpl. split; [lia|exact H].
    + simpl app in H. rewrite starts_ci_cons in H.
      apply andb_prop in H. destruct H as [Hpc H].
      destruct (IH _ _ H) as [Hx|[Hlen Hy]].
      * left. rewrite starts_ci_cons, Hpc, Hx. reflexivity.
      * right. simpl. split; [lia|exact Hy].
Qed.

Lemma starts_ci_app_l lit : forall x y,
  starts_ci lit x = true -> starts_ci lit (x ++ y) = true.
Proof.
  induction lit as [|p lit IH]; intros x y H; [reflexivity|].
  destruct x as [|c x']; [discriminate|].
  simpl app. rewrite starts_ci_cons in *.
  apply andb_prop in H. destruct H as [-> H]. simpl. auto.
Qed.

Lemma clash_starts lit : forall t z, clash lit t = true -> starts_ci lit (t ++ z) = false.
Proof.
  induction lit as [|p lit IH]; intros t z H; [discriminate|].
  destruct t as [|c t']; [discriminate|].
  simpl in H. simpl app. rewrite starts_ci_cons.
  destruct (ignorecase_eq p c); [|reflexivity]. simpl. auto.
Qed.

Lemma all_suffixes_skipn f : forall s k,
  all_suffixes f s = true -> k < length s -> f (skipn k s) = true.
Proof.
  induction s as [|c s IH]; intros k H Hk; simpl in Hk; [lia|].
  simpl in H. apply andb_prop in H. destruct H as [Hf H].
  destruct k; [exact Hf|]. simpl. apply IH; [exact H|lia].
Qed.

Lemma occurs_ci_false_starts lit : forall s,
  occurs_ci lit s = false -> starts_ci lit s = false.
Proof.
  intros s H. destruct s; simpl in H; apply orb_false_elim in H; tauto.
Qed.

Lemma occurs_ci_false_tail lit c s :
  occurs_ci lit (c :: s) = false -> occurs_ci lit s = false.
Proof.
  intros H. simpl in H. apply orb_false_elim in H. tauto.
Qed.

Lemma occurs_ci_false_app_r lit : forall x y,
  occurs_ci lit (x ++ y) = false -> occurs_ci lit y = false.
Proof.
  induction x as [|c x IH]; intros y H; [exact H|].
  apply IH. exact (occurs_ci_false_tail _ _ _ H).
Qed.

Lemma occurs_ci_false_app_l lit : forall x y,
  occurs_ci lit (x ++ y) = false -> occurs_ci lit x = false.
Proof.
  induction x as [|c x IH]; intros y H.
  - simpl. rewrite orb_false_r.
    apply occurs_ci_false_starts in H. simpl in H.
    destruct (starts_ci lit []) eqn:E; [|reflexivity].
    pose proof (starts_ci_app_l lit [] y E) as E'. simpl in E'. congruence.
  - simpl. apply orb_false_intro.
    + destruct (starts_ci lit (c :: x)) eqn:E; [|reflexivity].
      apply occurs_ci_false_starts in H.
      pose proof (starts_ci_app_l lit (c :: x) y E) as E'. congruence.
    + apply (IH y). exact (occurs_ci_false_tail _ _ _ H).
Qed.

(** *** Text in which a literal cannot start *)

Lemma quiet_before_cons lit c x y :
  quiet_before lit (c :: x) y = true <->
  starts_ci lit (c :: x ++ y) = false /\ quiet_before lit x y = true.
Proof.
  simpl. rewrite andb_true_iff, negb_true_iff. tauto.
Qed.

Lemma quiet_before_free lit y :
  (forall k, 1 <= k < length lit -> starts_ci (skipn k lit) y = false) ->
  forall x, occurs_ci lit x = false -> quiet_before lit x y = true.
Proof.
  intros Hy. induction x as [|c x IH]; intros Hx; [reflexivity|].
  apply quiet_before_cons. split.
  - destruct (starts_ci lit (c :: x ++ y)) eqn:E; [|reflexivity].
    destruct (starts_ci_app lit (c :: x) y E) as [Hin|[Hlen Hs]].
    + apply occurs_ci_false_starts in Hx. congruence.
    + rewrite Hy in Hs; [discriminate|]. simpl. simpl in Hlen. lia.
  - apply IH. exact (occurs_ci_false_tail _ _ _ Hx).
Qed.

Lemma suffix_clash_starts lit t z :
  suffix_clash lit t = true ->
  forall k, 1 <= k < length lit -> starts_ci (skipn k lit) (t ++ z) = false.
Proof.
  unfold suffix_clash. intros H k Hk.
  destruct lit as [|p lit]; simpl in Hk; [lia|].
  destruct k as [|k]; [lia|]. simpl.
  apply clash_starts.
  apply (all_suffixes_skipn (fun suffix => clash suffix t)); [exact H|lia].
Qed.

Lemma quiet_before_tag lit t z x :
  suffix_clash lit t = true -> occurs_ci lit x = false ->
  quiet_before lit x (t ++ z) = true.
Proof.
  intros Ht Hx. apply quiet_before_free; [|exact Hx].
  apply suffix_clash_starts. exact Ht.
Qed.

Lemma quiet_before_end lit x :
  occurs_ci lit x = false -> quiet_before lit x [] = true.
Proof.
  intros Hx. apply quiet_before_free; [|exact Hx].
  intros k Hk. destruct (skipn k lit) as [|q l] eqn:E; [|reflexivity].
  assert (Hl : length (skipn k lit) = 0) by (rewrite E; reflexivity).
  rewrite length_skipn in Hl. lia.
Qed.

Lemma quiet_before_dead lit z : forall t,
  dead_in lit t = true -> quiet_before lit t z = true.
Proof.
  unfold dead_in. induction t as [|c t IH]; intros H; [reflexivity|].
  simpl in H. apply andb_prop in H. destruct H as [Hc H].
  apply quiet_before_cons. split; [|auto].
  exact (clash_starts lit (c :: t) z Hc).
Qed.

Lemma quiet_before_app lit : forall x x' y,
  quiet_before lit x (x' ++ y) = true -> quiet_before lit x' y = true ->
  quiet_before lit (x ++ x') y = true.
Proof.
  induction x as [|c x IH]; intros x' y H H'; [exact H'|].
  apply quiet_before_cons in H. destruct H as [Hc H].
  simpl app. apply quiet_before_cons. rewrite <- app_assoc. auto.
Qed.

(** *** The lazy star *)

Lemma match_lazy_until_split lit : forall s g m rest,
  match_lazy_until lit s = Some (g, m, rest) ->
  s = g ++ m ++ rest /\ ci_variant lit m.
Proof.
  induction s as [|c s IH]; intros g m rest H; simpl in H.
  - destruct (match_literal lit []) as [[m' r']|] eqn:Hm; [|discriminate].
    inversion H; subst. apply match_literal_split in Hm. simpl. tauto.
  - destruct (match_literal lit (c :: s)) as [[m' r']|] eqn:Hm.
    + inversion H; subst. apply match_literal_split in Hm. simpl. tauto.
    + destruct (match_lazy_until lit s) as [[[g' m'] r']|] eqn:Hl; [|discriminate].
      inversion H; subst. destruct (IH _ _ _ eq_refl) as [-> Hv].
      split; [reflexivity|exact Hv].
Qed.

Lemma match_lazy_until_quiet lit z m rest :
  match_literal lit z = Some (m, rest) ->
  forall g, quiet_before lit g z = true ->
  match_lazy_until lit (g ++ z) = Some (g, m, rest).
Proof.
  intros Hz. induction g as [|c g IH]; intros Hq.
  - simpl app. destruct z; simpl; rewrite Hz; reflexivity.
  - apply quiet_before_cons in Hq. destruct Hq as [Hc Hq].
    apply starts_ci_false in Hc. simpl. simpl in Hc. rewrite Hc.
    rewrite (IH Hq). reflexivity.
Qed.

(** *** finditer *)

Lemma match_tag_pattern_starts st en s :
  starts_ci st s = false -> match_tag_pattern st en s = None.
Proof.
  intros H. apply starts_ci_false in H. unfold match_tag_pattern. rewrite H.
  reflexivity.
Qed.

Lemma finditer_from_skip st en : forall x y,
  finditer_from st en (length x) (x ++ y) = finditer_from st en 0 y.
Proof.
  induction x as [|c x IH]; intros y; [reflexivity|].
  simpl. apply IH.
Qed.

Lemma finditer_quiet st en y : forall x,
  quiet_before st x y = true -> finditer st en (x ++ y) = finditer st en y.
Proof.
  unfold finditer. induction x as [|c x IH]; intros H; [reflexivity|].
  apply quiet_before_cons in H. destruct H as [Hc H].
  simpl. simpl in Hc. rewrite (match_tag_pattern_starts st en _ Hc). auto.
Qed.

Lemma finditer_none st en s :
  occurs_ci st s = false -> finditer st en s = [].
Proof.
  intros H. rewrite <- (app_nil_r s).
  rewrite finditer_quiet; [reflexivity|]. apply quiet_before_end. exact H.
Qed.

Lemma finditer_match st en m c g rest :
  match_tag_pattern st en (c :: g ++ rest) = Some m ->
  group0 m = c :: g ->
  finditer st en (c :: g ++ rest) = m :: finditer st en rest.
Proof.
  intros Hm Hg. unfold finditer. simpl. rewrite Hm, Hg. simpl.
  rewrite finditer_from_skip. reflexivity.
Qed.

Lemma match_tag_pattern_split st en s m :
  match_tag_pattern st en s = Some m ->
  exists m_start m_end post,
    s = m_start ++ group1 m ++ m_end ++ post /\
    group0 m = m_start ++ group1 m ++ m_end /\
    ci_variant st m_start /\ ci_variant en m_end.
Proof.
  unfold match_tag_pattern. intros H.
  destruct (match_literal st s) as [[ms r]|] eqn:E1; [|discriminate].
  destruct (match_lazy_until en r) as [[[g me] r']|] eqn:E2; [|discriminate].
  inversion H; subst m; clear H. simpl.
  apply match_literal_split in E1. destruct E1 as (-> & _ & Hs).
  apply match_lazy_until_split in E2. destruct E2 as (-> & He).
  exists ms, me, r'. auto.
Qed.

(** Every match that [finditer] reports is an occurrence, in the text, of
    the start literal, then the captured group, then the end literal, the
    literals up to letter case. *)
Lemma finditer_from_sound st en m : forall s skip,
  In m (finditer_from st en skip s) ->
  exists pre m_start m_end post,
    s = pre ++ m_start ++ group1 m ++ m_end ++ post /\
    group0 m = m_start ++ group1 m ++ m_end /\
    ci_variant st m_start /\ ci_variant en m_end.
Proof.
  induction s as [|c s IH]; intros skip H; [contradiction|].
  simpl in H. destruct skip as [|k].
  - destruct (match_tag_pattern st en (c :: s)) as [m'|] eqn:Hm.
    + destruct H as [->|H].
      * destruct (match_tag_pattern_split _ _ _ _ Hm) as (ms & me & post & Hs & Hg & Hv).
        exists [], ms, me, post. auto.
      * destruct (IH _ H) as (pre & ms & me & post & -> & Hg & Hv).
        exists (c :: pre), ms, me, post. auto.
    + destruct (IH _ H) as (pre & ms & me & post & -> & Hg & Hv).
      exists (c :: pre), ms, me, post. auto.
  - destruct (IH _ H) as (pre & ms & me & post & -> & Hg & Hv).
    exists (c :: pre), ms, me, post. auto.
Qed.

Lemma finditer_has_span st en s m :
  In m (finditer st en s) -> has_span st en s.
Proof.
  intros H. destruct (finditer_from_sound _ _ _ _ _ H)
    as (pre & ms & me & post & Hs & _ & H1 & H2).
  exists pre, ms, (group1 m), me, post. auto.
Qed.

Lemma match_lazy_until_some lit z : starts_ci lit z = true ->
  forall g, match_lazy_until lit (g ++ z) <> None.
Proof.
  intros Hz. apply starts_ci_true in Hz. destruct Hz as (m & r & Hz).
  induction g as [|c g IH].
  - simpl app. destruct z; simpl; rewrite Hz; discriminate.
  - simpl. destruct (match_literal lit (c :: g ++ z)) as [[m' r']|]; [discriminate|].
    destruct (match_lazy_until lit (g ++ z)) as [[[g' m'] r']|]; [discriminate|].
    contradiction.
Qed.

(** Conversely, a text with such an occurrence has a match. *)
Lemma finditer_complete st en s :
  st <> [] -> has_span st en s -> finditer st en s <> [].
Proof.
  intros Hst (pre & ms & g & me & post & -> & Hs & He).
  unfold finditer. induction pre as [|c pre IH].
  - destruct ms as [|c ms].
    + apply ci_variant_length in Hs. destruct st; [contradiction|discriminate].
    + simpl app. simpl finditer_from.
      assert (Hm : match_tag_pattern st en (c :: ms ++ g ++ me ++ post) <> None).
      { unfold match_tag_pattern.
        change (c :: ms ++ g ++ me ++ post) with ((c :: ms) ++ g ++ me ++ post).
        rewrite (match_literal_app st _ _ Hs).
        pose proof (match_lazy_until_some en (me ++ post)) as Hl.
        destruct (match_lazy_until en (g ++ me ++ post)) as [[[g' m'] r']|] eqn:E.
        - discriminate.
        - exfalso. apply (Hl ltac:(apply starts_ci_true; eexists _, _;
            apply match_literal_app; exact He) g). exact E. }
      destruct (match_tag_pattern st en (c :: ms ++ g ++ me ++ post));
        [discriminate|contradiction].
  - simpl app. simpl finditer_from.
    destruct (match_tag_pattern st en (c :: pre ++ ms ++ g ++ me ++ post));
      [discriminate|exact IH].
Qed.

(** The one match of a text with one occurrence. *)
Lemma finditer_single st en x ms g me y :
  ci_variant st ms -> ci_variant en me -> st <> [] ->
  quiet_before st x (ms ++ g ++ me ++ y) = true ->
  quiet_before en g (me ++ y) = true ->
  quiet_before st y [] = true ->
  finditer st en (x ++ ms ++ g ++ me ++ y)
  = [ {| group0 := ms ++ g ++ me; group1 := g |} ].
Proof.
  intros Hs He Hst Hx Hg Hy.
  rewrite (finditer_quiet st en _ x Hx).
  assert (Hm : match_tag_pattern st en (ms ++ g ++ me ++ y)
               = Some {| group0 := ms ++ g ++ me; group1 := g |}).
  { unfold match_tag_pattern. rewrite (match_literal_app st _ _ Hs).
    rewrite (match_lazy_until_quiet en (me ++ y) me y
               (match_literal_app en _ _ He) g Hg). reflexivity. }
  destruct ms as [|c ms].
  { apply ci_variant_length in Hs. destruct st; [contradiction|discriminate]. }
  replace ((c :: ms) ++ g ++ me ++ y) with (c :: (ms ++ g ++ me) ++ y) in *
    by (simpl; rewrite <- !app_assoc; reflexivity).
  rewrite (finditer_match st en _ c (ms ++ g ++ me) y Hm) by reflexivity.
  f_equal. rewrite <- (app_nil_r y), (finditer_quiet st en [] y Hy). reflexivity.
Qed.

(** *** The detector as a fold *)

Lemma append_block_blank st en bs m :
  strip (group1 m) = [] -> append_block st en bs m = bs.
Proof.
  unfold append_block. intros H. destruct (nonempty (group1 m)); [rewrite H|]; reflexivity.
Qed.

Lemma append_block_nonblank st en bs m :
  strip (group1 m) <> [] ->
  append_block st en bs m
  = bs ++ [reasoning_block st en (strip (group1 m)) (group0 m) (length bs)].
Proof.
  unfold append_block. intros H.
  destruct (group1 m) as [|c g] eqn:E.
  - exfalso. apply H. reflexivity.
  - simpl nonempty. cbv iota.
    destruct (strip (c :: g)); [contradiction|reflexivity].
Qed.

Lemma scan_blank content bs tags :
  (forall m, In m (finditer (fst tags) (snd tags) content) -> strip (group1 m) = []) ->
  scan_tags content bs tags = bs.
Proof.
  unfold scan_tags. generalize (finditer (fst tags) (snd tags) content).
  intros ms. revert bs. induction ms as [|m ms IH]; intros bs H; [reflexivity|].
  simpl. rewrite append_block_blank by (apply H; left; reflexivity).
  apply IH. intros m' Hm'. apply H. right. exact Hm'.
Qed.

Lemma scan_none content bs tags :
  finditer (fst tags) (snd tags) content = [] -> scan_tags content bs tags = bs.
Proof.
  intros H. apply scan_blank. rewrite H. contradiction.
Qed.

Lemma scan_one content bs tags m :
  finditer (fst tags) (snd tags) content = [m] ->
  strip (group1 m) <> [] ->
  scan_tags content bs tags
  = bs ++ [reasoning_block (fst tags) (snd tags) (strip (group1 m)) (group0 m) (length bs)].
Proof.
  intros H Hne. unfold scan_tags. rewrite H. simpl.
  apply append_block_nonblank. exact Hne.
Qed.

Lemma fold_scan_blank content : forall l bs,
  (forall tags m, In tags l -> In m (finditer (fst tags) (snd tags) content) ->
                  strip (group1 m) = []) ->
  fold_left (scan_tags content) l bs = bs.
Proof.
  induction l as [|tags l IH]; intros bs H; [reflexivity|].
  simpl. rewrite scan_blank.
  - apply IH. intros t m Ht. apply H. right. exact Ht.
  - intros m. apply H. left. reflexivity.
Qed.

(** An invariant of the blocks, kept by every append, holds of all blocks
    that the detector returns. *)
Lemma detect_invariant (P : block -> Prop) content :
  (forall tags m n,
     In tags DEFAULT_REASONING_TAGS ->
     In m (finditer (fst tags) (snd tags) content) ->
     strip (group1 m) <> [] ->
     P (reasoning_block (fst tags) (snd tags) (strip (group1 m)) (group0 m) n)) ->
  Forall P (detect_reasoning_tags content).
Proof.
  unfold detect_reasoning_tags. intros H.
  cut (forall l bs, incl l DEFAULT_REASONING_TAGS -> Forall P bs ->
                    Forall P (fold_left (scan_tags content) l bs)).
  { intros C. apply C; [apply incl_refl|constructor]. }
  induction l as [|tags l IH]; intros bs Hl Hbs; [exact Hbs|].
  simpl. apply IH; [intros t Ht; apply Hl; right; exact Ht|].
  assert (Ht : In tags DEFAULT_REASONING_TAGS) by (apply Hl; left; reflexivity).
  unfold scan_tags.
  assert (Hms : forall m, In m (finditer (fst tags) (snd tags) content) ->
                In m (finditer (fst tags) (snd tags) content)) by auto.
  revert Hms. generalize (finditer (fst tags) (snd tags) content) at 1 3.
  intros ms. revert bs Hbs. induction ms as [|m ms IHm]; intros bs Hbs Hms; [exact Hbs|].
  simpl. apply IHm; [|intros m' Hm'; apply Hms; right; exact Hm'].
  destruct (list_eq_dec N.eq_dec (strip (group1 m)) []) as [E|E].
  - rewrite append_block_blank by exact E. exact Hbs.
  - rewrite append_block_nonblank by exact E.
    apply Forall_app. split; [exact Hbs|].
    constructor; [|constructor]. apply H; [exact Ht| |exact E].
    apply Hms. left. reflexivity.
Qed.

(** *** strip *)

Lemma lstrip_app x : forall y,
  lstrip (x ++ y) = match lstrip x with [] => lstrip y | _ :: _ => lstrip x ++ y end.
Proof.
  induction x as [|c x IH]; intros y; [reflexivity|].
  simpl. destruct (isspace c); [apply IH|reflexivity].
Qed.

Lemma rstrip_nil_iff s : rstrip s = [] <-> lstrip (rev s) = [].
Proof.
  unfold rstrip. split; intros H.
  - apply (f_equal (@rev char)) in H. rewrite rev_involutive in H. exact H.
  - rewrite H. reflexivity.
Qed.

(** [rstrip] read from the left. *)
Lemma rstrip_cons c s :
  rstrip (c :: s) =
  match rstrip s with
  | [] => if isspace c then [] else [c]
  | _ :: _ => c :: rstrip s
  end.
Proof.
  unfold rstrip at 1. simpl rev. rewrite lstrip_app.
  destruct (lstrip (rev s)) as [|d l] eqn:E.
  - assert (Hr : rstrip s = []) by (apply rstrip_nil_iff; exact E).
    rewrite Hr. simpl. destruct (isspace c); reflexivity.
  - assert (Hr : rstrip s = rev (d :: l)) by (unfold rstrip; rewrite E; reflexivity).
    rewrite rev_app_distr. change (rev [c] ++ rev (d :: l)) with (c :: rev (d :: l)).
    rewrite <- Hr.
    destruct (rstrip s) eqn:E'; [|reflexivity].
    apply rstrip_nil_iff in E'. congruence.
Qed.

Lemma lstrip_idem s : lstrip (lstrip s) = lstrip s.
Proof.
  induction s as [|c s IH]; [reflexivity|].
  simpl. destruct (isspace c) eqn:E; [exact IH|]. simpl. rewrite E. reflexivity.
Qed.

Lemma rstrip_idem s : rstrip (rstrip s) = rstrip s.
Proof.
  unfold rstrip. rewrite rev_involutive, lstrip_idem. reflexivity.
Qed.

Lemma lstrip_head s : lstrip s = [] \/ exists c t, lstrip s = c :: t /\ isspace c = false.
Proof.
  induction s as [|c s IH]; [left; reflexivity|].
  simpl. destruct (isspace c) eqn:E; [exact IH|]. right. eauto.
Qed.

Lemma lstrip_nonspace c s : isspace c = false -> lstrip (c :: s) = c :: s.
Proof. intros H. simpl. rewrite H. reflexivity. Qed.

Lemma rstrip_nonspace_head c s :
  isspace c = false -> exists t, rstrip (c :: s) = c :: t.
Proof.
  intros H. rewrite rstrip_cons, H. destruct (rstrip s); eauto.
Qed.

Lemma strip_lstrip s : lstrip (strip s) = strip s.
Proof.
  unfold strip. destruct (lstrip_head s) as [E|(c & t & E & Hc)]; rewrite E.
  - reflexivity.
  - destruct (rstrip_nonspace_head c t Hc) as (r & ->).
    apply lstrip_nonspace. exact Hc.
Qed.

Lemma strip_idem s : strip (strip s) = strip s.
Proof.
  unfold strip at 1. rewrite strip_lstrip. unfold strip. apply rstrip_idem.
Qed.

(** ** The properties of the specification *)

(** *** C10: the blocks of the detector *)



Lemma detected_block_example :
  detect_reasoning_tags (u "before <think> plan </think> after")
  = [reasoning_block (u "<think>") (u "</think>") (u "plan") (u "<think> plan </think>") 0].
Proof. vm_compute. reflexivity. Qed.

(** *** C9: the summary line *)

Lemma contains_refl s : contains s s.
Proof. exists [], []. rewrite app_nil_r. reflexivity. Qed.

Lemma contains_trans s x y : contains s x -> contains x y -> contains s y.
Proof.
  intros (p & q & ->) (p' & q' & ->). exists (p ++ p'), (q' ++ q).
  rewrite <- !app_assoc. reflexivity.
Qed.

Lemma contains_app_l s x y : contains x y -> contains (x ++ s) y.
Proof.
  intros (p & q & ->). exists p, (q ++ s). rewrite <- !app_assoc. reflexivity.
Qed.

Lemma contains_app_r s x y : contains x y -> contains (s ++ x) y.
Proof.
  intros (p & q & ->). exists (s ++ p), q. rewrite <- !app_assoc. reflexivity.
Qed.

Lemma contains_join sep p : forall parts, In p parts -> contains (join sep parts) p.
Proof.
  induction parts as [|q parts IH]; intros H; [contradiction|].
  simpl. destruct parts as [|r parts].
  - destruct H as [->|[]]. apply contains_refl.
  - destruct H as [->|H].
    + apply contains_app_l, contains_refl.
    + apply contains_app_r, contains_app_r, IH, H.
Qed.

Lemma html_block_summary b :
  contains (html_block b) (u "<summary>" ++ summary_text (duration b) ++ u "</summary>").
Proof.
  exists (u "<details type=" ++ dq ++ u "reasoning" ++ dq ++ u " done=" ++ dq
          ++ u "true" ++ dq ++ u " duration=" ++ dq ++ str_of_int (duration b)
          ++ dq ++ u ">" ++ nl),
         (nl ++ join nl (map format_line (splitlines (content b))) ++ nl
          ++ u "</details>").
  unfold html_block. rewrite <- !app_assoc. reflexivity.
Qed.

(** C9.  In the rendered document the summary of every block reads
    "Thought for 1 second" when the duration is 1 and
    "Thought for [d] seconds" for every other integer [d], 0 and 2
    included. *)
Theorem summary_pluralization (processed_data : processed) (b : block) :
  In b (reasoning_blocks processed_data) ->
  contains (generate_html_output processed_data)
    (u "<summary>" ++ summary_text (duration b) ++ u "</summary>") /\
  (duration b = 1%Z -> summary_text (duration b) = u "Thought for 1 second") /\
  (duration b <> 1%Z ->
   summary_text (duration b) = u "Thought for " ++ str_of_int (duration b) ++ u " seconds") /\
  summary_text 0 = u "Thought for 0 seconds" /\
  summary_text 2 = u "Thought for 2 seconds".
Proof.
  intros Hb. repeat split.
  - apply contains_trans with (html_block b); [|apply html_block_summary].
    unfold generate_html_output. apply contains_join.
    destruct (nonempty (main_content processed_data)).
    + apply in_or_app. left. apply in_map. exact Hb.
    + apply in_map. exact Hb.
  - intros ->. reflexivity.
  - intros Hd. unfold summary_text.
    destruct (duration b =? 1)%Z eqn:E; [apply Z.eqb_eq in E; contradiction|].
    reflexivity.
Qed.

Lemma summary_pluralization_witness :
  let b := reasoning_block (u "<think>") (u "</think>") (u "plan") (u "<think>plan</think>") 0 in
  let data := {| main_content := u "answer"; reasoning_blocks := [b];
                 total_reasoning_time := 1 |} in
  contains (generate_html_output data)
    (u "<summary>" ++ summary_text (duration b) ++ u "</summary>") /\
  (duration b = 1%Z -> summary_text (duration b) = u "Thought for 1 second") /\
  (duration b <> 1%Z ->
   summary_text (duration b) = u "Thought for " ++ str_of_int (duration b) ++ u " seconds") /\
  summary_text 0 = u "Thought for 0 seconds" /\
  summary_text 2 = u "Thought for 2 seconds".
Proof.
  intros b data. apply (summary_pluralization data b). simpl. left. reflexivity.
Defined.

(** *** C4: spans that overlap *)

(** The detector itself returns two spans whose regions intersect, on a
    text in which a pair of tags opens inside another one; the renderer
    returns a document for them. *)
Lemma overlapping_spans_are_rendered :
  let source := u "<thinking>a <reasoning> b</thinking> c</reasoning>" in
  exists b1 b2 document,
    reasoning_blocks (process_content source) = [b1; b2] /\
    span_at source 0 b1 /\ span_at source 12 b2 /\
    ranges_intersect 0 b1 12 b2 /\
    call_generate_html_output (process_content source) = Returned document /\
    call_generate_html_output (process_content source) <> Raised (u "InvalidSpanSet").
Proof.
  eexists _, _, _. split; [vm_compute; reflexivity|].
  split; [vm_compute; reflexivity|].
  split; [vm_compute; reflexivity|].
  split; [vm_compute; split; lia|].
  split; [reflexivity|discriminate].
Qed.

(** C4, as the code has it.  The renderer has no check of the spans it is
    given: whatever the blocks are, and wherever their matched texts lie, it
    returns the document made of the rendered blocks in their order and of
    the residual text, and raises nothing. *)
Theorem renderer_never_raises (processed_data : processed) :
  (forall condition, call_generate_html_output processed_data <> Raised condition) /\
  call_generate_html_output processed_data
  = Returned
      (join (nl ++ nl)
         (map html_block (reasoning_blocks processed_data)
          ++ (if nonempty (main_content processed_data)
              then [main_content processed_data] else []))).
Proof.
  split; [discriminate|].
  unfold call_generate_html_output, generate_html_output.
  destruct (nonempty (main_content processed_data)); [reflexivity|].
  rewrite app_nil_r. reflexivity.
Qed.

(** *** C5: spans with nothing but whitespace in them *)

Lemma isspace_in w : isspace w = true -> In w whitespace_code_points.
Proof.
  unfold isspace. intros H. apply existsb_exists in H.
  destruct H as (x & Hx & E). apply char_eqb_eq in E. subst. exact Hx.
Qed.

Lemma head_not_space_starts lit w z :
  head_not_space lit = true -> isspace w = true -> starts_ci lit (w :: z) = false.
Proof.
  intros H Hw. destruct lit as [|p lit]; [discriminate|].
  rewrite starts_ci_cons. unfold head_not_space in H.
  rewrite forallb_forall in H. specialize (H w (isspace_in w Hw)).
  apply negb_true_iff in H. rewrite H. reflexivity.
Qed.

Lemma quiet_before_spaces lit y : forall ws,
  head_not_space lit = true -> forallb isspace ws = true ->
  quiet_before lit ws y = true.
Proof.
  induction ws as [|w ws IH]; intros H Hws; [reflexivity|].
  simpl in Hws. apply andb_prop in Hws. destruct Hws as [Hw Hws].
  apply quiet_before_cons. split; [|auto].
  apply head_not_space_starts; assumption.
Qed.

Lemma lstrip_spaces : forall ws, forallb isspace ws = true -> lstrip ws = [].
Proof.
  induction ws as [|w ws IH]; intros H; [reflexivity|].
  simpl in H. apply andb_prop in H. destruct H as [Hw H].
  simpl. rewrite Hw. auto.
Qed.

Lemma strip_spaces ws : forallb isspace ws = true -> strip ws = [].
Proof. intros H. unfold strip. rewrite lstrip_spaces by exact H. reflexivity. Qed.

Lemma is_variant_true lit v : is_variant lit v = true -> ci_variant lit v.
Proof.
  unfold is_variant, ci_variant.
  destruct (match_literal lit v) as [[m [|c r]]|] eqn:E; try discriminate.
  intros _. apply match_literal_split in E. destruct E as (E & _).
  rewrite app_nil_r in E. subst. reflexivity.
Qed.

Lemma table_meets tags' tags :
  In tags' DEFAULT_REASONING_TAGS -> In tags DEFAULT_REASONING_TAGS ->
  meets tags' tags = true.
Proof.
  intros H' H.
  assert (T : forallb (fun t' => forallb (meets t') DEFAULT_REASONING_TAGS)
                DEFAULT_REASONING_TAGS = true) by (vm_compute; reflexivity).
  rewrite forallb_forall in T. specialize (T _ H').
  rewrite forallb_forall in T. exact (T _ H).
Qed.

Lemma table_start_nonempty tags :
  In tags DEFAULT_REASONING_TAGS -> fst tags <> [].
Proof.
  intros H E.
  assert (T : forallb (fun t => nonempty (fst t)) DEFAULT_REASONING_TAGS = true)
    by (vm_compute; reflexivity).
  rewrite forallb_forall in T. specialize (T _ H). rewrite E in T. discriminate.
Qed.

(** The matches of any pattern of the table on a bare pair of tags around
    whitespace capture whitespace only. *)
Lemma finditer_blank tags' tags ws m :
  In tags' DEFAULT_REASONING_TAGS -> In tags DEFAULT_REASONING_TAGS ->
  forallb isspace ws = true ->
  In m (finditer (fst tags') (snd tags') (fst tags ++ ws ++ snd tags)) ->
  strip (group1 m) = [].
Proof.
  intros H' H Hws Hm. pose proof (table_meets _ _ H' H) as M.
  unfold meets in M. apply andb_prop in M. destruct M as [M C].
  apply andb_prop in M. destruct M as [Hs He].
  apply orb_prop in C. destruct C as [C|C]; apply andb_prop in C; destruct C as [C1 C2].
  - apply is_variant_true in C1. apply is_variant_true in C2.
    pose proof (finditer_single (fst tags') (snd tags') [] (fst tags) ws (snd tags) []
                  C1 C2 (table_start_nonempty _ H') eq_refl
                  (quiet_before_spaces _ _ ws He Hws) eq_refl) as F.
    simpl app in F. rewrite app_nil_r in F. rewrite F in Hm.
    destruct Hm as [<-|[]]. simpl. apply strip_spaces. exact Hws.
  - exfalso.
    assert (Q : quiet_before (fst tags') (fst tags ++ ws ++ snd tags) [] = true).
    { apply quiet_before_app; [apply quiet_before_dead; exact C1|].
      apply quiet_before_app; [apply quiet_before_spaces; assumption|].
      apply quiet_before_dead. exact C2. }
    pose proof (finditer_quiet (fst tags') (snd tags') [] _ Q) as F.
    rewrite app_nil_r in F. rewrite F in Hm. exact Hm.
Qed.

(** The claim fails on its own examples: no span comes back for a pair of
    tags with nothing, or with spaces only, between them. *)
Lemma blank_spans_not_reported :
  detect_reasoning_tags (u "<thinking></thinking>") = [] /\
  detect_reasoning_tags (u "<thinking>   </thinking>") = [].
Proof. split; vm_compute; reflexivity. Qed.

(** C5, as the code has it.  The test for an empty content is in the
    matcher: for every pair of the table and every run of whitespace, empty
    or not, the pattern of the pair does match the start literal followed by
    the run and the end literal, with the run as its group, and the
    detector drops the match and returns no span at all. *)
Theorem blank_span_filtered (tags : text * text) (ws : text) :
  In tags DEFAULT_REASONING_TAGS ->
  forallb isspace ws = true ->
  finditer (fst tags) (snd tags) (fst tags ++ ws ++ snd tags)
  = [ {| group0 := fst tags ++ ws ++ snd tags; group1 := ws |} ] /\
  detect_reasoning_tags (fst tags ++ ws ++ snd tags) = [].
Proof.
  intros H Hws. split.
  - pose proof (table_meets _ _ H H) as M. unfold meets in M.
    apply andb_prop in M. destruct M as [M _].
    apply andb_prop in M. destruct M as [_ He].
    pose proof (finditer_single (fst tags) (snd tags) [] (fst tags) ws (snd tags) []
                  (ci_variant_refl _) (ci_variant_refl _)
                  (table_start_nonempty _ H) eq_refl
                  (quiet_before_spaces _ _ ws He Hws) eq_refl) as F.
    simpl app in F. rewrite app_nil_r in F. exact F.
  - unfold detect_reasoning_tags. apply fold_scan_blank.
    intros tags' m H' Hm. exact (finditer_blank tags' tags ws m H' H Hws Hm).
Qed.

Lemma blank_span_filtered_witness :
  finditer (u "<think>") (u "</think>") (u "<think>" ++ [32; 10; 9]%N ++ u "</think>")
  = [ {| group0 := u "<think>" ++ [32; 10; 9]%N ++ u "</think>";
         group1 := [32; 10; 9]%N |} ] /\
  detect_reasoning_tags (u "<think>" ++ [32; 10; 9]%N ++ u "</think>") = [].
Proof.
  apply (blank_span_filtered (u "<think>", u "</think>") [32; 10; 9]%N).
  - left. reflexivity.
  - reflexivity.
Defined.

(** *** C2: letter case *)

Lemma ci_variant_cons p lit c v :
  ci_variant (p :: lit) (c :: v) <-> ignorecase_eq p c = true /\ ci_variant lit v.
Proof.
  unfold ci_variant. simpl. destruct (ignorecase_eq p c).
  - destruct (match_literal lit v) as [[m r]|].
    + split.
      * intros H. inversion H; subst. auto.
      * intros [_ H]. inversion H; subst. reflexivity.
    + split; [discriminate|intros [_ H]; discriminate].
  - split; [discriminate|intros [H _]; discriminate].
Qed.

Lemma ci_variant_nil_l v : ci_variant [] v <-> v = [].
Proof.
  unfold ci_variant. simpl. split; intros H; [inversion H; reflexivity|subst; reflexivity].
Qed.

Lemma ci_variant_nil_r p lit : ~ ci_variant (p :: lit) [].
Proof. unfold ci_variant. simpl. discriminate. Qed.

(** A literal clashes with a variant of a text as it does with the text. *)
Lemma clash_variant : forall l t v, ci_variant t v -> clash l v = clash l t.
Proof.
  induction l as [|q l IH]; intros t v H; [reflexivity|].
  destruct t as [|p t], v as [|c v].
  - reflexivity.
  - apply ci_variant_nil_l in H. discriminate.
  - apply ci_variant_nil_r in H. contradiction.
  - apply ci_variant_cons in H. destruct H as [Hpc H]. simpl.
    assert (E : ignorecase_eq q c = ignorecase_eq q p).
    { destruct (ignorecase_eq q p) eqn:Eqp.
      - exact (ignorecase_eq_trans q p c Eqp Hpc).
      - destruct (ignorecase_eq q c) eqn:Eqc; [|reflexivity].
        rewrite ignorecase_eq_sym in Hpc.
        rewrite <- Eqp. symmetry. exact (ignorecase_eq_trans q c p Eqc Hpc). }
    rewrite E. destruct (ignorecase_eq q p); [apply IH; exact H|reflexivity].
Qed.

Lemma all_suffixes_ext f g : (forall s, f s = g s) ->
  forall s, all_suffixes f s = all_suffixes g s.
Proof.
  intros E. induction s as [|c s IH]; [reflexivity|].
  simpl. rewrite E, IH. reflexivity.
Qed.

Lemma suffix_clash_variant lit t v :
  ci_variant t v -> suffix_clash lit v = suffix_clash lit t.
Proof.
  intros H. unfold suffix_clash. apply all_suffixes_ext.
  intros s. apply clash_variant. exact H.
Qed.

Lemma table_suffix_clash tags :
  In tags DEFAULT_REASONING_TAGS ->
  suffix_clash (fst tags) (fst tags) = true /\ suffix_clash (snd tags) (snd tags) = true.
Proof.
  intros H.
  assert (T : table_unbordered = true) by (vm_compute; reflexivity).
  unfold table_unbordered in T. rewrite forallb_forall in T.
  specialize (T _ H). apply andb_prop in T. exact T.
Qed.

Lemma fold_append_grows st en : forall ms bs,
  exists l, fold_left (append_block st en) ms bs = bs ++ l.
Proof.
  induction ms as [|m ms IH]; intros bs.
  - exists []. rewrite app_nil_r. reflexivity.
  - simpl. destruct (IH (append_block st en bs m)) as (l & ->).
    unfold append_block.
    destruct (nonempty (if nonempty (group1 m) then strip (group1 m) else [])).
    + eexists. rewrite <- app_assoc. reflexivity.
    + eauto.
Qed.

Lemma fold_scan_grows content : forall l bs,
  exists l', fold_left (scan_tags content) l bs = bs ++ l'.
Proof.
  induction l as [|tags l IH]; intros bs.
  - exists []. rewrite app_nil_r. reflexivity.
  - simpl. destruct (IH (scan_tags content bs tags)) as (l' & ->).
    unfold scan_tags.
    destruct (fold_append_grows (fst tags) (snd tags)
                (finditer (fst tags) (snd tags) content) bs) as (l0 & ->).
    eexists. rewrite <- app_assoc. reflexivity.
Qed.

Lemma fold_append_in st en m : forall ms bs,
  In m ms -> strip (group1 m) <> [] ->
  exists n, In (reasoning_block st en (strip (group1 m)) (group0 m) n)
              (fold_left (append_block st en) ms bs).
Proof.
  induction ms as [|m' ms IH]; intros bs Hin Hne; [contradiction|].
  simpl. destruct Hin as [->|Hin].
  - rewrite (append_block_nonblank st en bs m Hne).
    destruct (fold_append_grows st en ms
                (bs ++ [reasoning_block st en (strip (group1 m)) (group0 m) (length bs)]))
      as (l & ->).
    exists (length bs). apply in_or_app. left. apply in_or_app. right. left. reflexivity.
  - apply IH; assumption.
Qed.

(** Every match with a content that is not blank has its block in the
    result of the detector. *)
Lemma detect_complete content tags m :
  In tags DEFAULT_REASONING_TAGS ->
  In m (finditer (fst tags) (snd tags) content) ->
  strip (group1 m) <> [] ->
  exists n, In (reasoning_block (fst tags) (snd tags) (strip (group1 m)) (group0 m) n)
              (detect_reasoning_tags content).
Proof.
  unfold detect_reasoning_tags. generalize (@nil block).
  induction DEFAULT_REASONING_TAGS as [|t l IH]; intros bs Ht Hm Hne; [contradiction|].
  simpl. destruct Ht as [->|Ht].
  - destruct (fold_append_in (fst tags) (snd tags) m _ bs Hm Hne) as (n & Hn).
    destruct (fold_scan_grows content l (scan_tags content bs tags)) as (l' & ->).
    exists n. apply in_or_app. left. exact Hn.
  - apply IH; assumption.
Qed.

(** The claim fails on its own example: the tags in capitals are matched by
    the pair in small letters. *)
Lemma uppercase_tags_are_matched :
  detect_reasoning_tags (u "<THINKING>x</THINKING>")
  = [reasoning_block (u "<thinking>") (u "</thinking>") (u "x")
       (u "<THINKING>x</THINKING>") 0].
Proof. vm_compute. reflexivity. Qed.

(** C2, as the code has it.  Matching is literal up to letter case
    ([re.IGNORECASE]).  A start and an end literal of a pair, written in any
    letter case, around a content that is not blank and has no end literal
    in it, give a span of that pair; and every span that the detector
    returns, on every text, is such an occurrence of a pair of the table. *)
Theorem matching_ignores_case (tags : text * text) (m_start g m_end : text) :
  In tags DEFAULT_REASONING_TAGS ->
  ci_variant (fst tags) m_start ->
  ci_variant (snd tags) m_end ->
  occurs_ci (snd tags) g = false ->
  strip g <> [] ->
  (exists b, In b (detect_reasoning_tags (m_start ++ g ++ m_end)) /\
             start_tag b = fst tags /\ end_tag b = snd tags /\
             content b = strip g /\ original_match b = m_start ++ g ++ m_end) /\
  (forall source b, In b (detect_reasoning_tags source) ->
     In (start_tag b, end_tag b) DEFAULT_REASONING_TAGS /\
     exists pre ms c me post,
       source = pre ++ ms ++ c ++ me ++ post /\
       ci_variant (start_tag b) ms /\ ci_variant (end_tag b) me /\
       original_match b = ms ++ c ++ me /\ content b = strip c).
Proof.
  intros Ht Hs He Hg Hne. split.
  - destruct (table_suffix_clash _ Ht) as [_ Hc].
    assert (Hq : quiet_before (snd tags) g (m_end ++ []) = true).
    { apply quiet_before_tag; [|exact Hg].
      rewrite (suffix_clash_variant (snd tags) (snd tags) m_end He). exact Hc. }
    pose proof (finditer_single (fst tags) (snd tags) [] m_start g m_end []
                  Hs He (table_start_nonempty _ Ht) eq_refl Hq eq_refl) as F.
    simpl app in F. rewrite app_nil_r in F.
    destruct (detect_complete (m_start ++ g ++ m_end) tags
                {| group0 := m_start ++ g ++ m_end; group1 := g |} Ht)
      as (n & Hn); [rewrite F; left; reflexivity|exact Hne|].
    eexists. split; [exact Hn|]. simpl. auto.
  - intros source. apply Forall_forall. apply detect_invariant.
    intros [st en] m n Hin Hm _. simpl. split; [exact Hin|].
    destruct (finditer_from_sound _ _ _ _ _ Hm)
      as (pre & ms & me & post & E & E0 & H1 & H2).
    exists pre, ms, (group1 m), me, post. auto.
Qed.

Lemma matching_ignores_case_witness :
  (exists b, In b (detect_reasoning_tags (u "<Think>" ++ u " plan " ++ u "</THINK>")) /\
             start_tag b = u "<think>" /\ end_tag b = u "</think>" /\
             content b = strip (u " plan ") /\
             original_match b = u "<Think>" ++ u " plan " ++ u "</THINK>") /\
  (forall source b, In b (detect_reasoning_tags source) ->
     In (start_tag b, end_tag b) DEFAULT_REASONING_TAGS /\
     exists pre ms c me post,
       source = pre ++ ms ++ c ++ me ++ post /\
       ci_variant (start_tag b) ms /\ ci_variant (end_tag b) me /\
       original_match b = ms ++ c ++ me /\ content b = strip c).
Proof.
  apply (matching_ignores_case (u "<think>", u "</think>")
           (u "<Think>") (u " plan ") (u "</THINK>")).
  - left. reflexivity.
  - reflexivity.
  - reflexivity.
  - reflexivity.
  - vm_compute. discriminate.
Defined.

(** *** C1: one pair of tags in a text *)

Lemma table_nodup : NoDup DEFAULT_REASONING_TAGS.
Proof.
  assert (E : nodup tags_eq_dec DEFAULT_REASONING_TAGS = DEFAULT_REASONING_TAGS)
    by (vm_compute; reflexivity).
  rewrite <- E. apply NoDup_nodup.
Qed.

Lemma startswith_app_l : forall a s b,
  startswith s (a ++ b) = true -> startswith s a = true.
Proof.
  induction a as [|p a IH]; intros s b H; [destruct s; reflexivity|].
  destruct s as [|c s]; [discriminate|].
  simpl in *. apply andb_prop in H. destruct H as [-> H]. simpl. eauto.
Qed.

Lemma startswith_starts_ci : forall a s,
  startswith s a = true -> starts_ci a s = true.
Proof.
  induction a as [|p a IH]; intros s H; [reflexivity|].
  destruct s as [|c s]; [discriminate|].
  simpl in H. apply andb_prop in H. destruct H as [Hpc H].
  apply char_eqb_eq in Hpc. subst c.
  rewrite starts_ci_cons, ignorecase_eq_refl. simpl. auto.
Qed.

Lemma startswith_self : forall a y, startswith (a ++ y) a = true.
Proof.
  induction a as [|p a IH]; intros y; [destruct y; reflexivity|].
  simpl. rewrite char_eqb_refl. simpl. apply IH.
Qed.

Lemma replace_from_skip old new : forall x y,
  replace_from old new (length x) (x ++ y) = replace_from old new 0 y.
Proof.
  induction x as [|c x IH]; intros y; [reflexivity|]. simpl. apply IH.
Qed.

Lemma replace_from_cons old new c s :
  replace_from old new 0 (c :: s)
  = if startswith (c :: s) old
    then new ++ replace_from old new (pred (length old)) s
    else c :: replace_from old new 0 s.
Proof. reflexivity. Qed.

(** [replace] leaves alone a stretch in which the head of [old] cannot
    start. *)
Lemma replace_from_quiet st w new y : forall x,
  quiet_before st x y = true ->
  replace_from (st ++ w) new 0 (x ++ y) = x ++ replace_from (st ++ w) new 0 y.
Proof.
  induction x as [|c x IH]; intros H; [reflexivity|].
  apply quiet_before_cons in H. destruct H as [Hc H].
  simpl app. rewrite replace_from_cons.
  destruct (startswith (c :: x ++ y) (st ++ w)) eqn:E.
  - apply startswith_app_l, startswith_starts_ci in E. congruence.
  - rewrite (IH H). reflexivity.
Qed.

Lemma replace_from_here c old new y :
  replace_from (c :: old) new 0 ((c :: old) ++ y)
  = new ++ replace_from (c :: old) new 0 y.
Proof.
  change ((c :: old) ++ y) with (c :: old ++ y) at 1.
  rewrite replace_from_cons.
  change (c :: old ++ y) with ((c :: old) ++ y).
  rewrite startswith_self. simpl pred. rewrite replace_from_skip. reflexivity.
Qed.

(** Removing the one occurrence of a matched text. *)
Lemma replace_single st w x y :
  st <> [] ->
  quiet_before st x ((st ++ w) ++ y) = true ->
  quiet_before st y [] = true ->
  replace (x ++ (st ++ w) ++ y) (st ++ w) [] = x ++ y.
Proof.
  intros Hst Hx Hy. destruct st as [|c st]; [contradiction|].
  unfold replace. simpl app at 2.
  change (c :: st ++ w) with ((c :: st) ++ w).
  rewrite (replace_from_quiet (c :: st) w [] _ x Hx).
  change ((c :: st) ++ w) with (c :: (st ++ w)).
  rewrite replace_from_here. simpl app at 2.
  change (c :: st ++ w) with ((c :: st) ++ w).
  rewrite <- (app_nil_r y) at 1.
  rewrite (replace_from_quiet (c :: st) w [] [] y Hy). simpl.
  rewrite app_nil_r. reflexivity.
Qed.

Lemma table_split tags :
  In tags DEFAULT_REASONING_TAGS ->
  exists l1 l2, DEFAULT_REASONING_TAGS = l1 ++ tags :: l2 /\
                ~ In tags l1 /\ ~ In tags l2.
Proof.
  intros H. destruct (in_split _ _ H) as (l1 & l2 & E).
  exists l1, l2. split; [exact E|].
  pose proof table_nodup as N. rewrite E in N.
  apply NoDup_remove_2 in N. split; intros Hin; apply N; apply in_or_app; auto.
Qed.

(** The claim as it is stated fails twice.  A content of whitespace gives no
    span; and the pair "<thought>" gives two spans, as the pattern of
    "<Thought>" matches it too.  In both texts no marker literal occurs
    but the two of the pair, and the content has no end literal. *)
Lemma single_span_claim_fails :
  (let tags := (u "<think>", u "</think>") in
   let source := [] ++ fst tags ++ u " " ++ snd tags ++ [] in
   In tags DEFAULT_REASONING_TAGS /\ occurs (snd tags) (u " ") = false /\
   no_other_literal tags source = true /\
   detect_reasoning_tags source = []) /\
  (let tags := (u "<thought>", u "</thought>") in
   let source := [] ++ fst tags ++ u "a" ++ snd tags ++ [] in
   In tags DEFAULT_REASONING_TAGS /\ occurs (snd tags) (u "a") = false /\
   no_other_literal tags source = true /\
   length (detect_reasoning_tags source) = 2).
Proof.
  split; cbv zeta; (split; [simpl; tauto|]); repeat split; vm_compute; reflexivity.
Qed.

(** C1, as the code has it.  Take a pair of the table, a content that is
    not blank and has no end literal in it, a prefix and a suffix without
    the start literal, and no start literal of another pair anywhere in the
    text, all occurrences read up to letter case.  Then the detector
    returns exactly one span, with the trimmed content, and the residual
    text is the prefix followed by the suffix, normalized.  (No text with
    the pair "<thought>" or "<Thought>" is of this kind, as each of the two
    start literals is the other one up to letter case.) *)
Theorem single_span_extracted (tags : text * text) (prefix content_in suffix : text) :
  let source := prefix ++ fst tags ++ content_in ++ snd tags ++ suffix in
  In tags DEFAULT_REASONING_TAGS ->
  strip content_in <> [] ->
  occurs_ci (fst tags) prefix = false ->
  occurs_ci (snd tags) content_in = false ->
  occurs_ci (fst tags) suffix = false ->
  (forall tags', In tags' DEFAULT_REASONING_TAGS -> tags' <> tags ->
                 occurs_ci (fst tags') source = false) ->
  detect_reasoning_tags source
  = [reasoning_block (fst tags) (snd tags) (strip content_in)
       (fst tags ++ content_in ++ snd tags) 0] /\
  main_content (process_content source) = strip (sub_blank_lines (prefix ++ suffix)).
Proof.
  intros source Ht Hne Hp Hc Hs Hother.
  destruct (table_suffix_clash _ Ht) as [Cs Ce].
  pose proof (table_start_nonempty _ Ht) as Hst.
  assert (Qp : quiet_before (fst tags) prefix
                 (fst tags ++ content_in ++ snd tags ++ suffix) = true)
    by (apply quiet_before_tag; assumption).
  assert (Qc : quiet_before (snd tags) content_in (snd tags ++ suffix) = true)
    by (apply quiet_before_tag; assumption).
  assert (Qs : quiet_before (fst tags) suffix [] = true)
    by (apply quiet_before_end; assumption).
  assert (D : detect_reasoning_tags source
              = [reasoning_block (fst tags) (snd tags) (strip content_in)
                   (fst tags ++ content_in ++ snd tags) 0]).
  { pose proof (finditer_single (fst tags) (snd tags) prefix (fst tags) content_in
                  (snd tags) suffix (ci_variant_refl _) (ci_variant_refl _)
                  Hst Qp Qc Qs) as F.
    fold source in F.
    destruct (table_split _ Ht) as (l1 & l2 & E & N1 & N2).
    assert (Hnone : forall l bs, ~ In tags l -> incl l DEFAULT_REASONING_TAGS ->
                      fold_left (scan_tags source) l bs = bs).
    { intros l bs Hn Hl. apply fold_scan_blank. intros t m Hin Hm.
      rewrite finditer_none in Hm; [contradiction|].
      apply Hother; [apply Hl; exact Hin|]. intros ->. contradiction. }
    unfold detect_reasoning_tags. rewrite E, fold_left_app. simpl.
    rewrite (Hnone l1) by
      (try exact N1; intros t Hin; rewrite E; apply in_or_app; left; exact Hin).
    rewrite (scan_one source [] tags _ F Hne). simpl.
    apply Hnone; [exact N2|].
    intros t Hin. rewrite E. apply in_or_app. right. right. exact Hin. }
  split; [exact D|].
  unfold process_content. rewrite D. simpl. unfold source.
  replace (prefix ++ fst tags ++ content_in ++ snd tags ++ suffix)
    with (prefix ++ (fst tags ++ content_in ++ snd tags) ++ suffix)
    by (rewrite <- !app_assoc; reflexivity).
  rewrite replace_single; [reflexivity|exact Hst| |exact Qs].
  rewrite <- !app_assoc. exact Qp.
Qed.

Lemma single_span_extracted_witness :
  detect_reasoning_tags
    (u "Intro " ++ u "<think>" ++ u " plan " ++ u "</think>" ++ u " answer")
  = [reasoning_block (u "<think>") (u "</think>") (strip (u " plan "))
       (u "<think>" ++ u " plan " ++ u "</think>") 0] /\
  main_content (process_content
    (u "Intro " ++ u "<think>" ++ u " plan " ++ u "</think>" ++ u " answer"))
  = strip (sub_blank_lines (u "Intro " ++ u " answer")).
Proof.
  apply (single_span_extracted (u "<think>", u "</think>")
           (u "Intro ") (u " plan ") (u " answer")).
  - left. reflexivity.
  - vm_compute. discriminate.
  - reflexivity.
  - reflexivity.
  - reflexivity.
  - intros tags' H Hne.
    repeat (destruct H as [<-|H]; [try (vm_compute; reflexivity);
                                   exfalso; apply Hne; reflexivity|]).
    contradiction.
Defined.

(** *** Whitespace normalization *)

Lemma match_spaces_newline_spaces : forall s n,
  match_spaces_newline s = Some n ->
  1 <= n <= length s /\ forallb isspace (firstn n s) = true.
Proof.
  induction s as [|c s IH]; intros n H; [discriminate|].
  simpl in H. destruct (isspace c) eqn:Hc; [|discriminate].
  destruct (match_spaces_newline s) as [k|] eqn:E.
  - inversion H; subst. destruct (IH k eq_refl) as [Hk Hf].
    simpl. rewrite Hc, Hf. split; [lia|reflexivity].
  - destruct (char_eqb c 10%N); [|discriminate]. inversion H; subst.
    simpl. rewrite Hc. split; [lia|reflexivity].
Qed.

Lemma match_spaces_newline_app c y : isspace c = false ->
  forall x, match_spaces_newline (x ++ c :: y) = match_spaces_newline x.
Proof.
  intros Hc. induction x as [|d x IH]; simpl.
  - rewrite Hc. reflexivity.
  - rewrite IH. reflexivity.
Qed.

Lemma sub_blank_lines_from_cons c s :
  sub_blank_lines_from 0 (c :: s)
  = if char_eqb c 10%N then
      match match_spaces_newline s with
      | Some n => 10%N :: 10%N :: sub_blank_lines_from n s
      | None => c :: sub_blank_lines_from 0 s
      end
    else c :: sub_blank_lines_from 0 s.
Proof. reflexivity. Qed.

(** A character that is not whitespace is kept, and what is before it and
    what is after it are rewritten apart. *)
Lemma sub_blank_lines_from_nonspace c y : isspace c = false ->
  forall x k, k <= length x -> forallb isspace (firstn k x) = true ->
  sub_blank_lines_from k (x ++ c :: y)
  = sub_blank_lines_from k x ++ c :: sub_blank_lines_from 0 y.
Proof.
  intros Hc. induction x as [|d x IH]; intros k Hk Hf.
  - simpl in Hk. assert (k = 0) by lia. subst k.
    simpl app. rewrite sub_blank_lines_from_cons.
    destruct (char_eqb c 10%N) eqn:E; [|reflexivity].
    apply char_eqb_eq in E. subst c. discriminate.
  - destruct k as [|k].
    + simpl app. rewrite !sub_blank_lines_from_cons.
      rewrite match_spaces_newline_app by exact Hc.
      destruct (char_eqb d 10%N).
      * destruct (match_spaces_newline x) as [n|] eqn:E.
        -- destruct (match_spaces_newline_spaces _ _ E) as [Hn Hs].
           rewrite IH; [reflexivity|lia|exact Hs].
        -- rewrite (IH 0); [reflexivity|lia|reflexivity].
      * rewrite (IH 0); [reflexivity|lia|reflexivity].
    + simpl in Hf. apply andb_prop in Hf. destruct Hf as [_ Hf].
      simpl in Hk. simpl. apply IH; [lia|exact Hf].
Qed.

Lemma sub_blank_lines_nonspace x c y : isspace c = false ->
  sub_blank_lines (x ++ c :: y) = sub_blank_lines x ++ c :: sub_blank_lines y.
Proof.
  intros Hc. unfold sub_blank_lines.
  apply sub_blank_lines_from_nonspace; [exact Hc|lia|reflexivity].
Qed.

Lemma sub_blank_lines_visible_prefix y : forall w,
  forallb (fun c => negb (isspace c)) w = true ->
  sub_blank_lines (w ++ y) = w ++ sub_blank_lines y.
Proof.
  induction w as [|c w IH]; intros H; [reflexivity|].
  simpl in H. apply andb_prop in H. destruct H as [Hc H].
  apply negb_true_iff in Hc.
  change ((c :: w) ++ y) with ([] ++ c :: (w ++ y)).
  rewrite sub_blank_lines_nonspace by exact Hc.
  rewrite (IH H). reflexivity.
Qed.

(** The same for a word. *)
Lemma sub_blank_lines_word w x y :
  w <> [] ->
  forallb (fun c => negb (isspace c)) w = true ->
  sub_blank_lines (x ++ w ++ y) = sub_blank_lines x ++ w ++ sub_blank_lines y.
Proof.
  intros Hw H. destruct w as [|c w]; [contradiction|].
  simpl in H. apply andb_prop in H. destruct H as [Hc H].
  apply negb_true_iff in Hc.
  simpl app. rewrite sub_blank_lines_nonspace by exact Hc.
  rewrite (sub_blank_lines_visible_prefix y w H). reflexivity.
Qed.

Lemma visible_sub_blank_lines_from : forall s k,
  k <= length s -> forallb isspace (firstn k s) = true ->
  visible (sub_blank_lines_from k s) = visible (skipn k s).
Proof.
  unfold visible.
  induction s as [|c s IH]; intros k Hk Hf.
  - destruct k; reflexivity.
  - destruct k as [|k].
    + rewrite sub_blank_lines_from_cons. simpl skipn.
      destruct (char_eqb c 10%N) eqn:Ec.
      * apply char_eqb_eq in Ec. subst c.
        destruct (match_spaces_newline s) as [n|] eqn:E.
        -- destruct (match_spaces_newline_spaces _ _ E) as [Hn Hs].
           simpl. rewrite (IH n) by (lia || exact Hs).
           rewrite <- (firstn_skipn n s) at 2. rewrite filter_app.
           assert (Z : filter (fun c => negb (isspace c)) (firstn n s) = []).
           { clear - Hs. induction (firstn n s) as [|d l IHl]; [reflexivity|].
             simpl in Hs. apply andb_prop in Hs. destruct Hs as [Hd Hs].
             simpl. rewrite Hd. simpl. auto. }
           rewrite Z. reflexivity.
        -- simpl. rewrite (IH 0) by (lia || reflexivity). reflexivity.
      * simpl. rewrite (IH 0) by (lia || reflexivity). reflexivity.
    + simpl in Hf. apply andb_prop in Hf. destruct Hf as [_ Hf].
      simpl in Hk. simpl. apply IH; [lia|exact Hf].
Qed.

Lemma visible_sub_blank_lines s : visible (sub_blank_lines s) = visible s.
Proof.
  unfold sub_blank_lines.
  rewrite visible_sub_blank_lines_from; [reflexivity|lia|reflexivity].
Qed.

Lemma visible_lstrip s : visible (lstrip s) = visible s.
Proof.
  unfold visible. induction s as [|c s IH]; [reflexivity|].
  simpl. destruct (isspace c) eqn:E; simpl; [exact IH|].
  rewrite E. reflexivity.
Qed.

Lemma visible_rev s : visible (rev s) = rev (visible s).
Proof.
  unfold visible. induction s as [|c s IH]; [reflexivity|].
  simpl. rewrite filter_app, IH. simpl.
  destruct (negb (isspace c)); simpl; [reflexivity|apply app_nil_r].
Qed.

Lemma visible_strip s : visible (strip s) = visible s.
Proof.
  unfold strip, rstrip.
  rewrite visible_rev, visible_lstrip, visible_rev, rev_involutive.
  apply visible_lstrip.
Qed.

Lemma sub_blank_lines_one_line : forall s, ~ In 10%N s -> sub_blank_lines s = s.
Proof.
  unfold sub_blank_lines. induction s as [|c s IH]; intros H; [reflexivity|].
  rewrite sub_blank_lines_from_cons.
  destruct (char_eqb c 10%N) eqn:E.
  - apply char_eqb_eq in E. subst c. exfalso. apply H. left. reflexivity.
  - rewrite IH; [reflexivity|]. intros Hin. apply H. right. exact Hin.
Qed.

Lemma lstrip_keeps_word w a b :
  w <> [] -> forallb (fun c => negb (isspace c)) w = true ->
  exists a', lstrip (a ++ w ++ b) = a' ++ w ++ b.
Proof.
  intros Hw H. rewrite lstrip_app. destruct (lstrip a) as [|d l].
  - exists []. destruct w as [|c w]; [contradiction|].
    simpl in H. apply andb_prop in H. destruct H as [Hc _].
    apply negb_true_iff in Hc. simpl. rewrite Hc. reflexivity.
  - exists (d :: l). reflexivity.
Qed.

Lemma strip_keeps_word w a b :
  w <> [] -> forallb (fun c => negb (isspace c)) w = true ->
  contains (strip (a ++ w ++ b)) w.
Proof.
  intros Hw H. unfold strip, rstrip.
  destruct (lstrip_keeps_word w a b Hw H) as (a' & ->).
  rewrite !rev_app_distr, <- app_assoc.
  destruct (lstrip_keeps_word (rev w) (rev b) (rev a')) as (b' & ->).
  - intros E. apply (f_equal (@rev char)) in E. rewrite rev_involutive in E.
    contradiction.
  - rewrite forallb_forall in *. intros x Hx. apply H. apply in_rev. exact Hx.
  - exists a', (rev b'). rewrite !rev_app_distr, !rev_involutive, <- app_assoc.
    reflexivity.
Qed.

Lemma spaceless_cons p lit :
  spaceless (p :: lit)
  = forallb (fun w => negb (ignorecase_eq p w)) whitespace_code_points && spaceless lit.
Proof. reflexivity. Qed.

Lemma variant_spaceless : forall lit v,
  spaceless lit = true -> ci_variant lit v ->
  forallb (fun c => negb (isspace c)) v = true.
Proof.
  induction lit as [|p lit IH]; intros v H Hv.
  - apply ci_variant_nil_l in Hv. subst. reflexivity.
  - destruct v as [|c v]; [apply ci_variant_nil_r in Hv; contradiction|].
    apply ci_variant_cons in Hv. destruct Hv as [Hpc Hv].
    rewrite spaceless_cons in H. apply andb_prop in H.
    destruct H as [Hp H]. simpl. rewrite (IH v H Hv), andb_true_r.
    destruct (isspace c) eqn:Ec; [|reflexivity].
    rewrite forallb_forall in Hp. specialize (Hp c (isspace_in c Ec)).
    rewrite Hpc in Hp. discriminate.
Qed.

Lemma table_spaceless tags :
  In tags DEFAULT_REASONING_TAGS ->
  spaceless (fst tags) = true /\ spaceless (snd tags) = true.
Proof.
  intros H.
  assert (T : forallb (fun t => spaceless (fst t) && spaceless (snd t))
                DEFAULT_REASONING_TAGS = true) by (vm_compute; reflexivity).
  rewrite forallb_forall in T. specialize (T _ H). apply andb_prop in T. exact T.
Qed.

(** Without an occurrence of a pair the detector finds nothing and the
    residual text is the normalized text. *)
Lemma no_span_detect s : no_span s -> detect_reasoning_tags s = [].
Proof.
  intros H. unfold detect_reasoning_tags. apply fold_scan_blank.
  intros tags m Ht Hm. exfalso. apply (H tags Ht).
  exact (finditer_has_span _ _ _ _ Hm).
Qed.

Lemma no_span_process s :
  no_span s -> main_content (process_content s) = strip (sub_blank_lines s).
Proof.
  intros H. unfold process_content. rewrite (no_span_detect s H). reflexivity.
Qed.

Lemma render_blockless s :
  generate_html_output
    {| main_content := s; reasoning_blocks := []; total_reasoning_time := 0 |} = s.
Proof.
  unfold generate_html_output. simpl. destruct s; reflexivity.
Qed.

Lemma occurs_ci_variant lit v : forall a b,
  ci_variant lit v -> occurs_ci lit (a ++ v ++ b) = true.
Proof.
  intros a b H. induction a as [|c a IH].
  - simpl app. assert (E : starts_ci lit (v ++ b) = true).
    { apply starts_ci_true. eexists _, _. apply match_literal_app. exact H. }
    destruct (v ++ b); simpl; rewrite E; reflexivity.
  - simpl. rewrite IH. apply orb_true_r.
Qed.

(** Every block of the detector comes from a match of its pair. *)
Lemma detect_block_origin source b :
  In b (detect_reasoning_tags source) ->
  In (start_tag b, end_tag b) DEFAULT_REASONING_TAGS /\
  exists m, In m (finditer (start_tag b) (end_tag b) source) /\
            original_match b = group0 m /\ content b = strip (group1 m).
Proof.
  revert b. apply Forall_forall. apply detect_invariant.
  intros [st en] m n Ht Hm _. simpl. split; [exact Ht|]. exists m. auto.
Qed.

(** *** Normalizing twice *)

Lemma sub_blank_lines_from_skipn : forall s k,
  sub_blank_lines_from k s = sub_blank_lines_from 0 (skipn k s).
Proof.
  induction s as [|c s IH]; intros k; [destruct k; reflexivity|].
  destruct k as [|k]; [reflexivity|]. simpl. apply IH.
Qed.

Lemma match_spaces_newline_maximal : forall s n,
  match_spaces_newline s = Some n -> match_spaces_newline (skipn n s) = None.
Proof.
  induction s as [|c s IH]; intros n H; [discriminate|].
  simpl in H. destruct (isspace c); [|discriminate].
  destruct (match_spaces_newline s) as [k|] eqn:E.
  - inversion H; subst. simpl. apply IH. reflexivity.
  - destruct (char_eqb c 10%N); [|discriminate]. inversion H; subst. exact E.
Qed.

Lemma match_spaces_newline_sub : forall s,
  match_spaces_newline s = None ->
  match_spaces_newline (sub_blank_lines_from 0 s) = None.
Proof.
  induction s as [|c s IH]; intros H; [reflexivity|].
  rewrite sub_blank_lines_from_cons. simpl in H.
  destruct (isspace c) eqn:Hc.
  - destruct (match_spaces_newline s) as [k|] eqn:E; [discriminate|].
    destruct (char_eqb c 10%N) eqn:Ec; [discriminate|].
    simpl. rewrite Hc, (IH eq_refl), Ec. reflexivity.
  - destruct (char_eqb c 10%N) eqn:Ec.
    + apply char_eqb_eq in Ec. subst c. discriminate.
    + simpl. rewrite Hc. reflexivity.
Qed.

Lemma settled_cons c s :
  settled (c :: s)
  = (if char_eqb c 10%N then
       match match_spaces_newline s with
       | Some n => Nat.eqb n 1
       | None => true
       end
     else true) && settled s.
Proof. reflexivity. Qed.

(** The substitution leaves a settled text. *)
Lemma sub_blank_lines_settled s : settled (sub_blank_lines s) = true.
Proof.
  unfold sub_blank_lines.
  remember (length s) as n eqn:Hn.
  assert (Hle : length s <= n) by lia. clear Hn. revert s Hle.
  induction n as [|n IH]; intros s Hle.
  - destruct s; [reflexivity|simpl in Hle; lia].
  - destruct s as [|c s]; [reflexivity|]. simpl in Hle.
    rewrite sub_blank_lines_from_cons.
    destruct (char_eqb c 10%N) eqn:Ec.
    + destruct (match_spaces_newline s) as [k|] eqn:E.
      * cbv iota. rewrite sub_blank_lines_from_skipn.
        pose proof (match_spaces_newline_sub _ (match_spaces_newline_maximal _ _ E)) as M.
        assert (S' : settled (sub_blank_lines_from 0 (skipn k s)) = true).
        { apply IH. rewrite length_skipn. lia. }
        assert (M1 : match_spaces_newline (10%N :: sub_blank_lines_from 0 (skipn k s))
                     = Some 1).
        { simpl. rewrite M. reflexivity. }
        cbn [settled]. rewrite M1, M, S'. reflexivity.
      * cbv iota. rewrite settled_cons, Ec, (match_spaces_newline_sub _ E).
        simpl. apply IH. lia.
    + cbv iota. rewrite settled_cons, Ec. simpl. apply IH. lia.
Qed.

(** It changes nothing in a settled text. *)
Lemma settled_sub_blank_lines : forall s,
  settled s = true -> sub_blank_lines s = s.
Proof.
  unfold sub_blank_lines.
  induction s as [|c s IH]; intros H; [reflexivity|].
  rewrite settled_cons in H. apply andb_prop in H. destruct H as [Hc Hs].
  pose proof (IH Hs) as E. rewrite sub_blank_lines_from_cons.
  destruct (char_eqb c 10%N) eqn:Ec; [|rewrite E; reflexivity].
  apply char_eqb_eq in Ec. subst c.
  destruct (match_spaces_newline s) as [k|] eqn:M; [|rewrite E; reflexivity].
  apply Nat.eqb_eq in Hc. subst k.
  destruct s as [|d s]; [discriminate|].
  simpl in M. destruct (isspace d); [|discriminate].
  destruct (match_spaces_newline s) as [j|] eqn:M'.
  { inversion M; subst j.
    destruct (match_spaces_newline_spaces _ _ M') as [[Hj _] _]. lia. }
  destruct (char_eqb d 10%N) eqn:Ed; [|discriminate].
  apply char_eqb_eq in Ed. subst d.
  rewrite sub_blank_lines_from_cons in E. change (char_eqb 10%N 10%N) with true in E.
  cbv iota in E. rewrite M' in E. inversion E as [E'].
  simpl sub_blank_lines_from at 1. rewrite E'. rewrite E'. reflexivity.
Qed.

Lemma settled_app_r : forall a b, settled (a ++ b) = true -> settled b = true.
Proof.
  induction a as [|c a IH]; intros b H; [exact H|].
  simpl app in H. rewrite settled_cons in H. apply andb_prop in H.
  apply IH. tauto.
Qed.

Lemma match_spaces_newline_grows z : forall b n,
  match_spaces_newline b = Some n ->
  exists n', match_spaces_newline (b ++ z) = Some n' /\ n <= n'.
Proof.
  induction b as [|c b IH]; intros n H; [discriminate|].
  simpl in H. simpl. destruct (isspace c); [|discriminate].
  destruct (match_spaces_newline b) as [k|] eqn:E.
  - inversion H; subst. destruct (IH k eq_refl) as (k' & -> & Hk).
    exists (S k'). split; [reflexivity|lia].
  - destruct (char_eqb c 10%N); [|discriminate]. inversion H; subst.
    destruct (match_spaces_newline (b ++ z)) as [k'|].
    + exists (S k'). split; [reflexivity|lia].
    + exists 1. split; [reflexivity|lia].
Qed.

Lemma settled_app_l z : forall a, settled (a ++ z) = true -> settled a = true.
Proof.
  induction a as [|c a IH]; intros H; [reflexivity|].
  simpl app in H. rewrite settled_cons in *. apply andb_prop in H.
  destruct H as [Hc H]. rewrite (IH H), andb_true_r.
  destruct (char_eqb c 10%N); [|reflexivity].
  destruct (match_spaces_newline a) as [n|] eqn:E; [|reflexivity].
  destruct (match_spaces_newline_grows z a n E) as (n' & E' & Hn).
  rewrite E' in Hc. apply Nat.eqb_eq in Hc. subst n'.
  destruct (match_spaces_newline_spaces _ _ E) as [[Hn1 _] _].
  apply Nat.eqb_eq. lia.
Qed.

(** The trimmed text lies inside the text. *)
Lemma lstrip_suffix s : exists a, s = a ++ lstrip s.
Proof.
  induction s as [|c s IH]; [exists []; reflexivity|].
  simpl. destruct (isspace c).
  - destruct IH as (a & E). exists (c :: a). simpl. rewrite <- E. reflexivity.
  - exists []. reflexivity.
Qed.

Lemma rstrip_prefix s : exists z, s = rstrip s ++ z.
Proof.
  unfold rstrip. destruct (lstrip_suffix (rev s)) as (a & E).
  exists (rev a). rewrite <- rev_app_distr, <- E, rev_involutive. reflexivity.
Qed.

Lemma strip_inside s : exists a z, s = a ++ strip s ++ z.
Proof.
  unfold strip. destruct (lstrip_suffix s) as (a & E).
  destruct (rstrip_prefix (lstrip s)) as (z & E').
  exists a, z. rewrite <- E', <- E. reflexivity.
Qed.

Lemma normalize_idempotent s :
  strip (sub_blank_lines (strip (sub_blank_lines s))) = strip (sub_blank_lines s).
Proof.
  rewrite (settled_sub_blank_lines (strip (sub_blank_lines s))).
  - apply strip_idem.
  - destruct (strip_inside (sub_blank_lines s)) as (a & z & E).
    pose proof (sub_blank_lines_settled s) as H. rewrite E in H.
    apply settled_app_r in H. apply settled_app_l in H. exact H.
Qed.

(** A word of the rewritten text is a word of the text, with the same text
    after it up to rewriting. *)
Lemma visible_prefix_pullback : forall w s b,
  forallb (fun c => negb (isspace c)) w = true ->
  sub_blank_lines_from 0 s = w ++ b ->
  exists b', s = w ++ b' /\ sub_blank_lines_from 0 b' = b.
Proof.
  induction w as [|d w IH]; intros s b Hw H; [exists s; auto|].
  simpl in Hw. apply andb_prop in Hw. destruct Hw as [Hd Hw].
  apply negb_true_iff in Hd.
  destruct s as [|e s]; [discriminate|].
  rewrite sub_blank_lines_from_cons in H.
  destruct (char_eqb e 10%N) eqn:Ee.
  - exfalso. apply char_eqb_eq in Ee. subst e.
    destruct (match_spaces_newline s); inversion H; subst d; discriminate.
  - inversion H; subst e. destruct (IH s b Hw H2) as (b' & -> & E).
    exists b'. auto.
Qed.

Lemma word_pullback w : w <> [] ->
  forallb (fun c => negb (isspace c)) w = true ->
  forall s k a b,
  sub_blank_lines_from k s = a ++ w ++ b ->
  exists a' b', s = a' ++ w ++ b' /\ sub_blank_lines_from 0 b' = b.
Proof.
  intros Hne Hw.
  assert (Hhead : forall b x, 10%N :: x <> w ++ b).
  { intros b x E. destruct w as [|d w]; [contradiction|].
    inversion E; subst d. discriminate. }
  induction s as [|c s IH]; intros k a b H.
  - exfalso. destruct k; simpl in H; destruct a; destruct w; try discriminate;
      contradiction.
  - destruct k as [|k].
    + rewrite sub_blank_lines_from_cons in H.
      destruct (char_eqb c 10%N) eqn:Ec.
      * apply char_eqb_eq in Ec. subst c.
        destruct (match_spaces_newline s) as [n|].
        -- destruct a as [|x a]; [exfalso; exact (Hhead _ _ H)|].
           inversion H as [[Hx H']]. clear H.
           destruct a as [|y a]; [exfalso; exact (Hhead _ _ H')|].
           inversion H' as [[Hy H'']]. clear H'.
           destruct (IH _ _ _ H'') as (a' & b' & -> & E).
           exists (10%N :: a'), b'. auto.
        -- destruct a as [|x a]; [exfalso; exact (Hhead _ _ H)|].
           inversion H as [[Hx H']]. clear H.
           destruct (IH _ _ _ H') as (a' & b' & -> & E).
           exists (10%N :: a'), b'. auto.
      * destruct a as [|x a].
        -- destruct w as [|d w]; [contradiction|].
           simpl in H. inversion H as [[Hx H']]. clear H.
           simpl in Hw. apply andb_prop in Hw. destruct Hw as [_ Hw].
           destruct (visible_prefix_pullback w s b Hw H') as (b' & -> & E).
           exists [], b'. auto.
        -- inversion H as [[Hx H']]. clear H.
           destruct (IH _ _ _ H') as (a' & b' & -> & E).
           exists (x :: a'), b'. auto.
    + simpl in H. destruct (IH _ _ _ H) as (a' & b' & -> & E).
      exists (c :: a'), b'. auto.
Qed.

(** An occurrence of a pair in the normalized text is one in the text. *)
Lemma has_span_normalized tags s :
  In tags DEFAULT_REASONING_TAGS ->
  has_span (fst tags) (snd tags) (strip (sub_blank_lines s)) ->
  has_span (fst tags) (snd tags) s.
Proof.
  intros Ht (pre & ms & g & me & post & E & Hs & He).
  destruct (table_spaceless _ Ht) as [Ss Se].
  pose proof (variant_spaceless _ _ Ss Hs) as Ws.
  pose proof (variant_spaceless _ _ Se He) as We.
  assert (Ns : ms <> []).
  { apply (variant_nonempty (fst tags)); [apply table_start_nonempty; exact Ht|exact Hs]. }
  assert (Ne : me <> []).
  { apply (variant_nonempty (snd tags)); [|exact He].
    intros Z. pose proof (table_meets tags tags Ht Ht) as M. unfold meets in M.
    apply andb_prop in M. destruct M as [M _].
    apply andb_prop in M. destruct M as [_ M].
    rewrite Z in M. discriminate. }
  destruct (strip_inside (sub_blank_lines s)) as (a & z & E').
  rewrite E in E'. unfold sub_blank_lines in E'.
  replace (a ++ (pre ++ ms ++ g ++ me ++ post) ++ z)
    with ((a ++ pre) ++ ms ++ (g ++ me ++ post ++ z)) in E'
    by (rewrite <- !app_assoc; reflexivity).
  destruct (word_pullback ms Ns Ws _ _ _ _ E') as (a' & b' & -> & E2).
  destruct (word_pullback me Ne We _ _ _ _ E2) as (g' & post' & -> & _).
  exists a', ms, g', me, post'. auto.
Qed.

Lemma no_span_normalized s : no_span s -> no_span (strip (sub_blank_lines s)).
Proof.
  intros H tags Ht Hs. apply (H tags Ht). exact (has_span_normalized tags s Ht Hs).
Qed.

(** *** C7: a start literal that is never closed *)

(** The claim as it is stated fails in two ways.  The residual text is
    normalized, not only trimmed: of three newlines two are left.  And a
    start literal that is never closed goes away with the span of another
    pair around it. *)
Lemma unterminated_claim_fails :
  (let source := u "<thinking>a" ++ nl ++ nl ++ nl ++ u "b" in
   occurs_ci (u "</thinking>") source = false /\
   detect_reasoning_tags source = [] /\
   main_content (process_content source) = u "<thinking>a" ++ nl ++ nl ++ u "b" /\
   main_content (process_content source) <> strip source) /\
  (let source := u "<think>x <thinking> y</think>" in
   occurs_ci (u "</thinking>") source = false /\
   main_content (process_content source) = [] /\
   main_content (process_content source) <> strip source).
Proof.
  split; cbv zeta; repeat split; try (vm_compute; reflexivity);
    vm_compute; discriminate.
Qed.

(** C7, as the code has it.  When a text has a start literal and no pair of
    the table has its start literal followed by its end literal, the
    detector returns no span and the residual text is the normalized text,
    with the start literal in it as it was written; for a text of one line
    that is the trimmed text.  A pair whose end literal is nowhere in a
    text has no span in it, whatever the other pairs find.  So it is for
    "<thinking>Content without closing tag". *)
Theorem unterminated_start_stays (tags : text * text) (pre m_start rest : text) :
  let source := pre ++ m_start ++ rest in
  In tags DEFAULT_REASONING_TAGS ->
  ci_variant (fst tags) m_start ->
  no_span source ->
  (detect_reasoning_tags source = [] /\
   main_content (process_content source) = strip (sub_blank_lines source) /\
   contains (main_content (process_content source)) m_start /\
   (~ In 10%N source -> main_content (process_content source) = strip source)) /\
  (forall other, occurs_ci (snd tags) other = false ->
     forall b, In b (detect_reasoning_tags other) ->
               (start_tag b, end_tag b) <> tags) /\
  (detect_reasoning_tags (u "<thinking>Content without closing tag") = [] /\
   main_content (process_content (u "<thinking>Content without closing tag"))
   = u "<thinking>Content without closing tag").
Proof.
  intros source Ht Hv Hno. split; [|split].
  - pose proof (no_span_process source Hno) as Hm.
    split; [exact (no_span_detect source Hno)|].
    split; [exact Hm|]. split.
    + rewrite Hm. unfold source.
      assert (Hw : forallb (fun c => negb (isspace c)) m_start = true).
      { apply (variant_spaceless (fst tags)); [|exact Hv].
        apply table_spaceless. exact Ht. }
      assert (Hne : m_start <> []).
      { intros E. apply ci_variant_length in Hv. rewrite E in Hv.
        apply (table_start_nonempty _ Ht). destruct (fst tags); [reflexivity|discriminate]. }
      rewrite (sub_blank_lines_word m_start pre rest Hne Hw).
      apply strip_keeps_word; assumption.
    + intros Hnl. rewrite Hm, sub_blank_lines_one_line by exact Hnl. reflexivity.
  - intros other Hocc b Hb E.
    destruct (detect_block_origin other b Hb) as (_ & m & Hm & _).
    assert (E1 : start_tag b = fst tags) by (rewrite <- E; reflexivity).
    assert (E2 : end_tag b = snd tags) by (rewrite <- E; reflexivity).
    rewrite E1, E2 in Hm.
    destruct (finditer_from_sound _ _ _ _ _ Hm)
      as (p & ms & me & post & Hs & _ & _ & Hme).
    rewrite Hs in Hocc.
    replace (p ++ ms ++ group1 m ++ me ++ post)
      with ((p ++ ms ++ group1 m) ++ me ++ post) in Hocc
      by (rewrite <- !app_assoc; reflexivity).
    rewrite (occurs_ci_variant (snd tags) me _ post Hme) in Hocc. discriminate.
  - split; vm_compute; reflexivity.
Qed.

Lemma no_span_example : no_span (u "note: <thinking>Content without closing tag").
Proof.
  intros tags Ht Hs.
  apply (finditer_complete _ _ _ (table_start_nonempty _ Ht)) in Hs.
  apply Hs. clear Hs.
  repeat (destruct Ht as [<-|Ht]; [vm_compute; reflexivity|]).
  contradiction.
Qed.

Lemma unterminated_start_stays_witness :
  let source := u "note: " ++ u "<thinking>" ++ u "Content without closing tag" in
  (detect_reasoning_tags source = [] /\
   main_content (process_content source) = strip (sub_blank_lines source) /\
   contains (main_content (process_content source)) (u "<thinking>") /\
   (~ In 10%N source -> main_content (process_content source) = strip source)) /\
  (forall other, occurs_ci (u "</thinking>") other = false ->
     forall b, In b (detect_reasoning_tags other) ->
               (start_tag b, end_tag b) <> (u "<thinking>", u "</thinking>")) /\
  (detect_reasoning_tags (u "<thinking>Content without closing tag") = [] /\
   main_content (process_content (u "<thinking>Content without closing tag"))
   = u "<thinking>Content without closing tag").
Proof.
  apply (unterminated_start_stays (u "<thinking>", u "</thinking>")
           (u "note: ") (u "<thinking>") (u "Content without closing tag")).
  - right. left. reflexivity.
  - reflexivity.
  - exact no_span_example.
Defined.

(** *** C6: a text without markers *)

Lemma match_spaces_newline_reaches : forall ws post,
  forallb isspace ws = true ->
  exists n, match_spaces_newline (ws ++ 10%N :: post) = Some n /\
            S (length ws) <= n.
Proof.
  induction ws as [|c ws IH]; intros post H.
  - assert (E : isspace 10%N = true) by reflexivity.
    cbn [app match_spaces_newline]. rewrite E.
    destruct (match_spaces_newline post) as [k|].
    + exists (S k). split; [reflexivity|simpl; lia].
    + exists 1. split; [reflexivity|simpl; lia].
  - cbn [forallb] in H. apply andb_prop in H. destruct H as [Hc Hw].
    destruct (IH post Hw) as (n & E & Hn).
    cbn [app match_spaces_newline]. rewrite Hc, E.
    exists (S n). split; [reflexivity|simpl; lia].
Qed.

Lemma match_spaces_newline_shape : forall s n,
  match_spaces_newline s = Some n ->
  exists ws post, s = ws ++ 10%N :: post /\ forallb isspace ws = true /\
                  n = S (length ws).
Proof.
  induction s as [|c s IH]; intros n H; [discriminate|].
  simpl in H. destruct (isspace c) eqn:Hc; [|discriminate].
  destruct (match_spaces_newline s) as [k|] eqn:E.
  - inversion H; subst. destruct (IH k eq_refl) as (ws & post & Es & Hw & Ek).
    exists (c :: ws), post. subst s k. cbn [forallb]. rewrite Hc, Hw.
    repeat split.
  - destruct (char_eqb c 10%N) eqn:Ec; [|discriminate]. inversion H; subst.
    apply char_eqb_eq in Ec. subst c. exists [], s. repeat split.
Qed.

(** The texts that the substitution leaves alone are those with their blank
    lines collapsed. *)
Lemma settled_collapsed s : settled s = true -> blank_lines_collapsed s.
Proof.
  intros H pre ws post E Hws. subst s. apply settled_app_r in H.
  rewrite settled_cons, char_eqb_refl in H. apply andb_prop in H.
  destruct H as [H _].
  destruct (match_spaces_newline_reaches ws post Hws) as (n & En & Hn).
  assert (K : Nat.eqb n 1 = true).
  { change (match Some n with Some k => Nat.eqb k 1 | None => true end = true).
    rewrite <- En. exact H. }
  apply Nat.eqb_eq in K. subst n.
  destruct ws; [reflexivity|simpl in Hn; lia].
Qed.

Lemma collapsed_settled : forall s, blank_lines_collapsed s -> settled s = true.
Proof.
  induction s as [|c s IH]; intros H; [reflexivity|].
  assert (Hs : blank_lines_collapsed s).
  { intros pre ws post E Hw. apply (H (c :: pre) ws post); [|exact Hw].
    rewrite E. reflexivity. }
  rewrite settled_cons, (IH Hs), andb_true_r.
  destruct (char_eqb c 10%N) eqn:Ec; [|reflexivity].
  apply char_eqb_eq in Ec. subst c.
  destruct (match_spaces_newline s) as [n|] eqn:E; [|reflexivity].
  destruct (match_spaces_newline_shape _ _ E) as (ws & post & Es & Hw & En).
  assert (W : ws = []).
  { apply (H [] ws post); [|exact Hw]. rewrite Es. reflexivity. }
  subst ws n. reflexivity.
Qed.

Lemma lstrip_nonspace_head s c t : lstrip s = c :: t -> isspace c = false.
Proof.
  intros E. destruct (lstrip_head s) as [H|(d & r & H & Hd)]; rewrite H in E.
  - discriminate.
  - inversion E; subst. exact Hd.
Qed.

Lemma strip_trimmed s : trimmed (strip s).
Proof.
  split.
  - intros c t E. apply (lstrip_nonspace_head (strip s) c t).
    rewrite strip_lstrip. exact E.
  - intros t c E. unfold strip, rstrip in E.
    apply (f_equal (@rev char)) in E.
    rewrite rev_involutive, rev_app_distr in E.
    exact (lstrip_nonspace_head _ _ _ E).
Qed.

Lemma trimmed_strip s : trimmed s -> strip s = s.
Proof.
  intros [Hh Hl].
  assert (L : lstrip s = s).
  { destruct s as [|c t]; [reflexivity|]. apply lstrip_nonspace.
    exact (Hh c t eq_refl). }
  assert (R : lstrip (rev s) = rev s).
  { destruct (rev s) as [|c t] eqn:E; [reflexivity|]. apply lstrip_nonspace.
    apply (Hl (rev t) c). apply (f_equal (@rev char)) in E.
    rewrite rev_involutive in E. exact E. }
  unfold strip, rstrip. rewrite L, R. apply rev_involutive.
Qed.

Lemma normalized_collapsed s : blank_lines_collapsed (strip (sub_blank_lines s)).
Proof.
  apply settled_collapsed.
  destruct (strip_inside (sub_blank_lines s)) as (a & z & E).
  pose proof (sub_blank_lines_settled s) as H. rewrite E in H.
  apply settled_app_r in H. apply settled_app_l in H. exact H.
Qed.

Lemma no_span_blank_lines_example :
  no_span (nl ++ u "  note: <thinking>" ++ nl ++ u " " ++ nl ++ nl
           ++ u "no closing tag "
           ++ nl).
Proof.
  intros tags Ht Hs.
  apply (finditer_complete _ _ _ (table_start_nonempty _ Ht)) in Hs.
  apply Hs. clear Hs.
  repeat (destruct Ht as [<-|Ht]; [vm_compute; reflexivity|]).
  contradiction.
Qed.

(** C6.  When no pair of the table has an occurrence in a text, the
    detector returns no span, and the rendered document is the text itself,
    normalized: blank lines collapsed by the substitution, then trimmed.
    Nothing but whitespace differs between the document and the text.  The
    document is normalized as the specification words it: it neither
    begins nor ends with a whitespace, and between two of its newlines there
    is never whitespace only, so that its blank lines are empty and no two
    of them follow each other (a line being what a newline ends).  A text
    that is normalized already is returned as it is, and so rendering the
    document again gives the document. *)
Theorem marker_free_render (source : text) :
  no_span source ->
  let document := generate_html_output (process_content source) in
  detect_reasoning_tags source = [] /\
  document = strip (sub_blank_lines source) /\
  visible document = visible source /\
  trimmed document /\
  blank_lines_collapsed document /\
  (trimmed source -> blank_lines_collapsed source -> document = source) /\
  generate_html_output (process_content document) = document.
Proof.
  intros H document.
  assert (R : forall s, no_span s ->
              generate_html_output (process_content s) = strip (sub_blank_lines s)).
  { intros s Hs. unfold process_content. rewrite (no_span_detect s Hs). simpl.
    apply render_blockless. }
  split; [exact (no_span_detect source H)|]. split; [exact (R source H)|].
  unfold document. rewrite (R source H).
  split; [rewrite visible_strip; apply visible_sub_blank_lines|].
  split; [apply strip_trimmed|].
  split; [apply normalized_collapsed|].
  split.
  - intros Ht Hc. rewrite (settled_sub_blank_lines source (collapsed_settled source Hc)).
    apply trimmed_strip. exact Ht.
  - rewrite (R _ (no_span_normalized source H)). apply normalize_idempotent.
Qed.

Lemma marker_free_render_witness :
  let source := nl ++ u "  note: <thinking>" ++ nl ++ u " " ++ nl ++ nl
                ++ u "no closing tag " ++ nl in
  let document := generate_html_output (process_content source) in
  document = u "note: <thinking>" ++ nl ++ nl ++ u "no closing tag" /\
  detect_reasoning_tags source = [] /\
  document = strip (sub_blank_lines source) /\
  visible document = visible source /\
  trimmed document /\
  blank_lines_collapsed document /\
  (trimmed source -> blank_lines_collapsed source -> document = source) /\
  generate_html_output (process_content document) = document.
Proof.
  intros source document. split; [vm_compute; reflexivity|].
  apply (marker_free_render source). exact no_span_blank_lines_example.
Defined.

(** *** C3: spans of two pairs *)

Lemma marker_free_lit s lit :
  marker_free s = true -> In lit marker_literals -> occurs_ci lit s = false.
Proof.
  unfold marker_free. intros H Hl. rewrite forallb_forall in H.
  apply negb_true_iff. exact (H lit Hl).
Qed.

Lemma marker_literals_start tags :
  In tags DEFAULT_REASONING_TAGS -> In (fst tags) marker_literals.
Proof.
  intros H. unfold marker_literals. apply in_flat_map.
  exists tags. split; [exact H|left; reflexivity].
Qed.

Lemma marker_literals_end tags :
  In tags DEFAULT_REASONING_TAGS -> In (snd tags) marker_literals.
Proof.
  intros H. unfold marker_literals. apply in_flat_map.
  exists tags. split; [exact H|right; left; reflexivity].
Qed.

(** A literal kept apart from a pair cannot start anywhere in a span of
    that pair whose content is free of it. *)
Lemma quiet_through_span lit tags c z :
  apart lit tags = true -> occurs_ci lit c = false ->
  quiet_before lit (fst tags ++ c ++ snd tags) z = true.
Proof.
  unfold apart. intros H Hc.
  apply andb_prop in H. destruct H as [H D2].
  apply andb_prop in H. destruct H as [H S2].
  apply andb_prop in H. destruct H as [S1 D1].
  apply quiet_before_app; [apply quiet_before_dead; exact D1|].
  apply quiet_before_app; [apply quiet_before_tag; assumption|].
  apply quiet_before_dead. exact D2.
Qed.

Lemma quiet_to_span lit tags x z :
  apart lit tags = true -> occurs_ci lit x = false ->
  quiet_before lit x (fst tags ++ z) = true.
Proof.
  unfold apart. intros H Hx.
  apply andb_prop in H. destruct H as [H _].
  apply andb_prop in H. destruct H as [H _].
  apply andb_prop in H. destruct H as [S1 _].
  apply quiet_before_tag; assumption.
Qed.

(** Free text, then a span of a pair the literal is apart from, then text
    in which it cannot start. *)
Lemma quiet_free_span lit tags x c y z :
  apart lit tags = true ->
  occurs_ci lit x = false -> occurs_ci lit c = false ->
  quiet_before lit y z = true ->
  quiet_before lit (x ++ fst tags ++ c ++ snd tags ++ y) z = true.
Proof.
  intros Ha Hx Hc Hy.
  apply quiet_before_app.
  - rewrite <- !app_assoc. apply quiet_to_span; assumption.
  - replace (fst tags ++ c ++ snd tags ++ y)
      with ((fst tags ++ c ++ snd tags) ++ y)
      by (rewrite <- !app_assoc; reflexivity).
    apply quiet_before_app; [|exact Hy].
    apply quiet_through_span; assumption.
Qed.

Section TwoSpans.

(** The span of [tx] comes first in the text, the span of [ty] second. *)
Variables tx ty : text * text.
Variables A cx B cy C : text.

Let source : text :=
  A ++ fst tx ++ cx ++ snd tx ++ B ++ fst ty ++ cy ++ snd ty ++ C.

Lemma finditer_stranger st en :
  apart st tx = true -> apart st ty = true ->
  occurs_ci st A = false -> occurs_ci st cx = false ->
  occurs_ci st B = false -> occurs_ci st cy = false ->
  occurs_ci st C = false ->
  finditer st en source = [].
Proof.
  intros Hx Hy HA Hcx HB Hcy HC.
  assert (Q : quiet_before st source [] = true).
  { unfold source. apply quiet_free_span; try assumption.
    apply quiet_free_span; try assumption.
    apply quiet_before_end. exact HC. }
  pose proof (finditer_quiet st en [] source Q) as F.
  rewrite app_nil_r in F. exact F.
Qed.

Lemma finditer_first :
  In tx DEFAULT_REASONING_TAGS -> apart (fst tx) ty = true ->
  occurs_ci (fst tx) A = false -> occurs_ci (snd tx) cx = false ->
  occurs_ci (fst tx) B = false -> occurs_ci (fst tx) cy = false ->
  occurs_ci (fst tx) C = false ->
  finditer (fst tx) (snd tx) source
  = [ {| group0 := fst tx ++ cx ++ snd tx; group1 := cx |} ].
Proof.
  intros Ht Hy HA Hcx HB Hcy HC.
  destruct (table_suffix_clash _ Ht) as [Cs Ce].
  apply finditer_single.
  - apply ci_variant_refl.
  - apply ci_variant_refl.
  - apply table_start_nonempty. exact Ht.
  - apply quiet_before_tag; assumption.
  - apply quiet_before_tag; assumption.
  - apply quiet_free_span; try assumption.
    apply quiet_before_end. exact HC.
Qed.

Lemma finditer_second :
  In ty DEFAULT_REASONING_TAGS -> apart (fst ty) tx = true ->
  occurs_ci (fst ty) A = false -> occurs_ci (fst ty) cx = false ->
  occurs_ci (fst ty) B = false -> occurs_ci (snd ty) cy = false ->
  occurs_ci (fst ty) C = false ->
  finditer (fst ty) (snd ty) source
  = [ {| group0 := fst ty ++ cy ++ snd ty; group1 := cy |} ].
Proof.
  intros Ht Hx HA Hcx HB Hcy HC.
  destruct (table_suffix_clash _ Ht) as [Cs Ce].
  unfold source.
  replace (A ++ fst tx ++ cx ++ snd tx ++ B ++ fst ty ++ cy ++ snd ty ++ C)
    with ((A ++ fst tx ++ cx ++ snd tx ++ B) ++ fst ty ++ cy ++ snd ty ++ C)
    by (rewrite <- !app_assoc; reflexivity).
  apply finditer_single.
  - apply ci_variant_refl.
  - apply ci_variant_refl.
  - apply table_start_nonempty. exact Ht.
  - apply quiet_free_span; try assumption.
    apply quiet_before_tag; assumption.
  - apply quiet_before_tag; assumption.
  - apply quiet_before_end. exact HC.
Qed.

(** Taking out the first span, then the second one. *)
Lemma replace_first_then_second :
  In tx DEFAULT_REASONING_TAGS -> In ty DEFAULT_REASONING_TAGS ->
  apart (fst tx) ty = true ->
  occurs_ci (fst tx) A = false -> occurs_ci (fst tx) B = false ->
  occurs_ci (fst tx) cy = false -> occurs_ci (fst tx) C = false ->
  occurs_ci (fst ty) (A ++ B) = false -> occurs_ci (fst ty) C = false ->
  replace (replace source (fst tx ++ cx ++ snd tx) []) (fst ty ++ cy ++ snd ty) []
  = A ++ B ++ C.
Proof.
  intros Htx Hty Hy HA HB Hcy HC HAB HC'.
  destruct (table_suffix_clash _ Htx) as [Cx _].
  destruct (table_suffix_clash _ Hty) as [Cy _].
  unfold source.
  replace (A ++ fst tx ++ cx ++ snd tx ++ B ++ fst ty ++ cy ++ snd ty ++ C)
    with (A ++ (fst tx ++ cx ++ snd tx) ++ B ++ fst ty ++ cy ++ snd ty ++ C)
    by (rewrite <- !app_assoc; reflexivity).
  rewrite replace_single.
  - replace (A ++ B ++ fst ty ++ cy ++ snd ty ++ C)
      with ((A ++ B) ++ (fst ty ++ cy ++ snd ty) ++ C)
      by (rewrite <- !app_assoc; reflexivity).
    rewrite replace_single.
    + rewrite <- app_assoc. reflexivity.
    + apply table_start_nonempty. exact Hty.
    + rewrite <- !app_assoc. apply quiet_before_tag; assumption.
    + apply quiet_before_end. exact HC'.
  - apply table_start_nonempty. exact Htx.
  - rewrite <- !app_assoc. apply quiet_before_tag; assumption.
  - apply quiet_free_span; try assumption.
    apply quiet_before_end. exact HC.
Qed.

(** Taking out the second span, then the first one. *)
Lemma replace_second_then_first :
  In tx DEFAULT_REASONING_TAGS -> In ty DEFAULT_REASONING_TAGS ->
  apart (fst ty) tx = true ->
  occurs_ci (fst ty) A = false -> occurs_ci (fst ty) cx = false ->
  occurs_ci (fst ty) B = false -> occurs_ci (fst ty) C = false ->
  occurs_ci (fst tx) A = false -> occurs_ci (fst tx) (B ++ C) = false ->
  replace (replace source (fst ty ++ cy ++ snd ty) []) (fst tx ++ cx ++ snd tx) []
  = A ++ B ++ C.
Proof.
  intros Htx Hty Hx HA Hcx HB HC HA' HBC.
  destruct (table_suffix_clash _ Htx) as [Cx _].
  destruct (table_suffix_clash _ Hty) as [Cy _].
  unfold source.
  replace (A ++ fst tx ++ cx ++ snd tx ++ B ++ fst ty ++ cy ++ snd ty ++ C)
    with ((A ++ fst tx ++ cx ++ snd tx ++ B) ++ (fst ty ++ cy ++ snd ty) ++ C)
    by (rewrite <- !app_assoc; reflexivity).
  rewrite replace_single.
  - replace ((A ++ fst tx ++ cx ++ snd tx ++ B) ++ C)
      with (A ++ (fst tx ++ cx ++ snd tx) ++ B ++ C)
      by (rewrite <- !app_assoc; reflexivity).
    rewrite replace_single.
    + reflexivity.
    + apply table_start_nonempty. exact Htx.
    + rewrite <- !app_assoc. apply quiet_before_tag; assumption.
    + apply quiet_before_end. exact HBC.
  - apply table_start_nonempty. exact Hty.
  - rewrite <- !app_assoc. apply quiet_free_span; try assumption.
    apply quiet_before_tag; assumption.
  - apply quiet_before_end. exact HC.
Qed.

End TwoSpans.

Ltac in_table :=
  solve [unfold DEFAULT_REASONING_TAGS, thinking_tags, reasoning_tags;
         repeat first [left; reflexivity | right]].

Section ThinkingAndReasoning.

Variables A c1 B c2 C : text.
Hypothesis outside_free : marker_free (A ++ B ++ C) = true.
Hypothesis c1_free : marker_free c1 = true.
Hypothesis c2_free : marker_free c2 = true.
Hypothesis c1_nonblank : strip c1 <> [].
Hypothesis c2_nonblank : strip c2 <> [].

Let thinking_first : text :=
  A ++ span_text thinking_tags c1 ++ B ++ span_text reasoning_tags c2 ++ C.
Let reasoning_first : text :=
  A ++ span_text reasoning_tags c2 ++ B ++ span_text thinking_tags c1 ++ C.

Let b1 : block :=
  reasoning_block (u "<thinking>") (u "</thinking>") (strip c1)
    (span_text thinking_tags c1) 0.
Let b2 : block :=
  reasoning_block (u "<reasoning>") (u "</reasoning>") (strip c2)
    (span_text reasoning_tags c2) 1.

Lemma outside_free_parts lit :
  In lit marker_literals ->
  occurs_ci lit A = false /\ occurs_ci lit B = false /\ occurs_ci lit C = false /\
  occurs_ci lit (A ++ B) = false /\ occurs_ci lit (B ++ C) = false.
Proof.
  intros H. pose proof (marker_free_lit _ _ outside_free H) as F.
  pose proof (occurs_ci_false_app_r _ _ _ F) as FBC.
  assert (FAB : occurs_ci lit (A ++ B) = false).
  { rewrite app_assoc in F. exact (occurs_ci_false_app_l _ _ _ F). }
  repeat split.
  - exact (occurs_ci_false_app_l _ _ _ F).
  - exact (occurs_ci_false_app_l _ _ _ FBC).
  - exact (occurs_ci_false_app_r _ _ _ FBC).
  - exact FAB.
  - exact FBC.
Qed.

Lemma stranger_apart tags :
  In tags DEFAULT_REASONING_TAGS ->
  tags <> thinking_tags -> tags <> reasoning_tags ->
  apart (fst tags) thinking_tags = true /\ apart (fst tags) reasoning_tags = true.
Proof.
  intros H N1 N2.
  repeat (destruct H as [<-|H];
          [first [exfalso; apply N1; reflexivity
                 |exfalso; apply N2; reflexivity
                 |split; vm_compute; reflexivity]|]).
  contradiction.
Qed.

Lemma thinking_reasoning_apart :
  apart (u "<thinking>") reasoning_tags = true /\
  apart (u "<reasoning>") thinking_tags = true.
Proof. split; vm_compute; reflexivity. Qed.

Lemma thinking_first_normal :
  thinking_first
  = A ++ fst thinking_tags ++ c1 ++ snd thinking_tags ++ B
      ++ fst reasoning_tags ++ c2 ++ snd reasoning_tags ++ C.
Proof. unfold thinking_first, span_text. rewrite <- !app_assoc. reflexivity. Qed.

Lemma reasoning_first_normal :
  reasoning_first
  = A ++ fst reasoning_tags ++ c2 ++ snd reasoning_tags ++ B
      ++ fst thinking_tags ++ c1 ++ snd thinking_tags ++ C.
Proof. unfold reasoning_first, span_text. rewrite <- !app_assoc. reflexivity. Qed.

(** What each pattern of the table finds in the two texts. *)
Lemma finditer_strangers tags :
  In tags DEFAULT_REASONING_TAGS ->
  tags <> thinking_tags -> tags <> reasoning_tags ->
  finditer (fst tags) (snd tags) thinking_first = [] /\
  finditer (fst tags) (snd tags) reasoning_first = [].
Proof.
  intros H N1 N2. destruct (stranger_apart tags H N1 N2) as [A1 A2].
  pose proof (marker_literals_start _ H) as L.
  destruct (outside_free_parts _ L) as (FA & FB & FC & _ & _).
  pose proof (marker_free_lit _ _ c1_free L) as F1.
  pose proof (marker_free_lit _ _ c2_free L) as F2.
  split.
  - rewrite thinking_first_normal. apply finditer_stranger; assumption.
  - rewrite reasoning_first_normal. apply finditer_stranger; assumption.
Qed.

Lemma finditer_thinking :
  finditer (u "<thinking>") (u "</thinking>") thinking_first
  = [ {| group0 := span_text thinking_tags c1; group1 := c1 |} ] /\
  finditer (u "<thinking>") (u "</thinking>") reasoning_first
  = [ {| group0 := span_text thinking_tags c1; group1 := c1 |} ].
Proof.
  assert (H : In thinking_tags DEFAULT_REASONING_TAGS) by in_table.
  assert (H' : In reasoning_tags DEFAULT_REASONING_TAGS) by in_table.
  pose proof (marker_literals_start _ H) as L.
  pose proof (marker_literals_end _ H) as Le.
  destruct (outside_free_parts _ L) as (FA & FB & FC & _ & _).
  destruct thinking_reasoning_apart as [Ap _].
  split.
  - rewrite thinking_first_normal.
    apply (finditer_first thinking_tags reasoning_tags); try assumption.
    + exact (marker_free_lit _ _ c1_free Le).
    + exact (marker_free_lit _ _ c2_free L).
  - rewrite reasoning_first_normal.
    apply (finditer_second reasoning_tags thinking_tags); try assumption.
    + exact (marker_free_lit _ _ c2_free L).
    + exact (marker_free_lit _ _ c1_free Le).
Qed.

Lemma finditer_reasoning :
  finditer (u "<reasoning>") (u "</reasoning>") thinking_first
  = [ {| group0 := span_text reasoning_tags c2; group1 := c2 |} ] /\
  finditer (u "<reasoning>") (u "</reasoning>") reasoning_first
  = [ {| group0 := span_text reasoning_tags c2; group1 := c2 |} ].
Proof.
  assert (H : In reasoning_tags DEFAULT_REASONING_TAGS) by in_table.
  pose proof (marker_literals_start _ H) as L.
  pose proof (marker_literals_end _ H) as Le.
  destruct (outside_free_parts _ L) as (FA & FB & FC & _ & _).
  destruct thinking_reasoning_apart as [_ Ap].
  split.
  - rewrite thinking_first_normal.
    apply (finditer_second thinking_tags reasoning_tags); try assumption.
    + exact (marker_free_lit _ _ c1_free L).
    + exact (marker_free_lit _ _ c2_free Le).
  - rewrite reasoning_first_normal.
    apply (finditer_first reasoning_tags thinking_tags); try assumption.
    + exact (marker_free_lit _ _ c2_free Le).
    + exact (marker_free_lit _ _ c1_free L).
Qed.

(** The detector goes through the table: the span of "<thinking>" is
    appended before the span of "<reasoning>" in both texts. *)
Lemma detect_two_pairs source :
  source = thinking_first \/ source = reasoning_first ->
  detect_reasoning_tags source = [b1; b2].
Proof.
  intros Hs.
  assert (S : forall tags, In tags DEFAULT_REASONING_TAGS ->
                tags <> thinking_tags -> tags <> reasoning_tags ->
                forall bs, scan_tags source bs tags = bs).
  { intros tags H N1 N2 bs. apply scan_none.
    destruct (finditer_strangers tags H N1 N2) as [F1 F2].
    destruct Hs as [->| ->]; assumption. }
  assert (T : finditer (u "<thinking>") (u "</thinking>") source
              = [ {| group0 := span_text thinking_tags c1; group1 := c1 |} ]).
  { destruct finditer_thinking as [F1 F2]. destruct Hs as [->| ->]; assumption. }
  assert (R : finditer (u "<reasoning>") (u "</reasoning>") source
              = [ {| group0 := span_text reasoning_tags c2; group1 := c2 |} ]).
  { destruct finditer_reasoning as [F1 F2]. destruct Hs as [->| ->]; assumption. }
  unfold detect_reasoning_tags, DEFAULT_REASONING_TAGS. cbn [fold_left].
  rewrite (S (u "<think>", u "</think>")) by
    (first [in_table | intros E; vm_compute in E; discriminate E]).
  rewrite (scan_one source [] (u "<thinking>", u "</thinking>") _ T c1_nonblank).
  rewrite (S (u "<reason>", u "</reason>")) by
    (first [in_table | intros E; vm_compute in E; discriminate E]).
  rewrite (scan_one source _ (u "<reasoning>", u "</reasoning>") _ R c2_nonblank).
  rewrite !S by (first [in_table | intros E; vm_compute in E; discriminate E]).
  reflexivity.
Qed.

Lemma residual_two_pairs source :
  source = thinking_first \/ source = reasoning_first ->
  main_content (process_content source) = strip (sub_blank_lines (A ++ B ++ C)).
Proof.
  intros Hs. unfold process_content.
  rewrite (detect_two_pairs source Hs). cbn [fold_left main_content].
  unfold b1, b2. cbn [original_match reasoning_block].
  assert (H1 : In thinking_tags DEFAULT_REASONING_TAGS) by in_table.
  assert (H2 : In reasoning_tags DEFAULT_REASONING_TAGS) by in_table.
  destruct (outside_free_parts _ (marker_literals_start _ H1))
    as (FA1 & FB1 & FC1 & FAB1 & FBC1).
  destruct (outside_free_parts _ (marker_literals_start _ H2))
    as (FA2 & FB2 & FC2 & FAB2 & FBC2).
  destruct thinking_reasoning_apart as [Ap1 Ap2].
  f_equal. f_equal. unfold span_text.
  destruct Hs as [->| ->].
  - rewrite thinking_first_normal.
    apply (replace_first_then_second thinking_tags reasoning_tags);
      try assumption.
    exact (marker_free_lit _ _ c2_free (marker_literals_start _ H1)).
  - rewrite reasoning_first_normal.
    apply (replace_second_then_first reasoning_tags thinking_tags);
      try assumption.
    exact (marker_free_lit _ _ c2_free (marker_literals_start _ H1)).
Qed.

End ThinkingAndReasoning.

(** The claim fails on the order of the blocks.  With the span of
    "<reasoning>" at offset 0 and the span of "<thinking>" at offset 29, the
    document still lists the block of "<thinking>" first. *)
Lemma blocks_not_in_source_order :
  let source := u "<reasoning>b</reasoning> mid <thinking>a</thinking>" in
  let b_thinking :=
    reasoning_block (u "<thinking>") (u "</thinking>") (u "a")
      (u "<thinking>a</thinking>") 0 in
  let b_reasoning :=
    reasoning_block (u "<reasoning>") (u "</reasoning>") (u "b")
      (u "<reasoning>b</reasoning>") 1 in
  span_at source 0 b_reasoning /\ span_at source 29 b_thinking /\
  detect_reasoning_tags source = [b_thinking; b_reasoning] /\
  generate_html_output (process_content source)
  = join (nl ++ nl) [html_block b_thinking; html_block b_reasoning; u "mid"] /\
  generate_html_output (process_content source)
  <> join (nl ++ nl) [html_block b_reasoning; html_block b_thinking; u "mid"].
Proof.
  cbv zeta. repeat split; try (vm_compute; reflexivity).
  vm_compute. discriminate.
Qed.

(** C3, as the code has it.  Take a text with one span of
    "<thinking>" and one span of "<reasoning>", in either order, the two
    contents not blank, and no marker literal, up to letter case, in the
    contents or in the text around the spans.  The detector returns exactly
    two spans, each with the tags of its pair; the block of "<thinking>"
    comes first and the block of "<reasoning>" second, in the order of the
    marker table and not of the positions in the text; the document lists
    them in that order; and the residual text is the text around the two
    spans, normalized. *)
Theorem two_pairs_in_table_order (reasoning_comes_first : bool)
  (A c1 B c2 C : text) :
  let source :=
    if reasoning_comes_first
    then A ++ span_text reasoning_tags c2 ++ B ++ span_text thinking_tags c1 ++ C
    else A ++ span_text thinking_tags c1 ++ B ++ span_text reasoning_tags c2 ++ C in
  let b1 := reasoning_block (u "<thinking>") (u "</thinking>") (strip c1)
              (span_text thinking_tags c1) 0 in
  let b2 := reasoning_block (u "<reasoning>") (u "</reasoning>") (strip c2)
              (span_text reasoning_tags c2) 1 in
  let residual := strip (sub_blank_lines (A ++ B ++ C)) in
  marker_free (A ++ B ++ C) = true ->
  marker_free c1 = true ->
  marker_free c2 = true ->
  strip c1 <> [] ->
  strip c2 <> [] ->
  detect_reasoning_tags source = [b1; b2] /\
  main_content (process_content source) = residual /\
  generate_html_output (process_content source)
  = join (nl ++ nl)
      ([html_block b1; html_block b2]
       ++ (if nonempty residual then [residual] else [])).
Proof.
  intros source b1 b2 residual HO H1 H2 N1 N2.
  assert (Hs : source = A ++ span_text thinking_tags c1 ++ B
                          ++ span_text reasoning_tags c2 ++ C
               \/ source = A ++ span_text reasoning_tags c2 ++ B
                             ++ span_text thinking_tags c1 ++ C).
  { unfold source. destruct reasoning_comes_first; [right|left]; reflexivity. }
  pose proof (detect_two_pairs A c1 B c2 C HO H1 H2 N1 N2 source Hs) as D.
  pose proof (residual_two_pairs A c1 B c2 C HO H1 H2 N1 N2 source Hs) as R.
  split; [exact D|]. split; [exact R|].
  unfold generate_html_output. rewrite R. fold residual.
  assert (B' : reasoning_blocks (process_content source) = [b1; b2]) by exact D.
  rewrite B'. destruct (nonempty residual); [reflexivity|].
  rewrite app_nil_r. reflexivity.
Qed.

Lemma two_pairs_in_table_order_witness :
  let source := [] ++ span_text reasoning_tags (u "b") ++ u " mid "
                   ++ span_text thinking_tags (u "a") ++ [] in
  let b1 := reasoning_block (u "<thinking>") (u "</thinking>") (strip (u "a"))
              (span_text thinking_tags (u "a")) 0 in
  let b2 := reasoning_block (u "<reasoning>") (u "</reasoning>") (strip (u "b"))
              (span_text reasoning_tags (u "b")) 1 in
  let residual := strip (sub_blank_lines ([] ++ u " mid " ++ [])) in
  detect_reasoning_tags source = [b1; b2] /\
  main_content (process_content source) = residual /\
  generate_html_output (process_content source)
  = join (nl ++ nl)
      ([html_block b1; html_block b2]
       ++ (if nonempty residual then [residual] else [])).
Proof.
  apply (two_pairs_in_table_order true [] (u "a") (u " mid ") (u "b") []).
  - reflexivity.
  - reflexivity.
  - reflexivity.
  - vm_compute. discriminate.
  - vm_compute. discriminate.
Defined.

(** *** C8: removal of rendered blocks *)

Lemma quiet_before_app_inv lit : forall x x' y,
  quiet_before lit (x ++ x') y = true -> quiet_before lit x (x' ++ y) = true.
Proof.
  induction x as [|c x IH]; intros x' y H; [reflexivity|].
  simpl app in H. apply quiet_before_cons in H. destruct H as [Hc H].
  apply quiet_before_cons. rewrite <- app_assoc in Hc. auto.
Qed.

Lemma dead_in_variant lit : forall t v,
  ci_variant t v -> dead_in lit v = dead_in lit t.
Proof.
  unfold dead_in. induction t as [|p t IH]; intros v H.
  - apply ci_variant_nil_l in H. subst. reflexivity.
  - destruct v as [|c v]; [apply ci_variant_nil_r in H; contradiction|].
    pose proof H as H'. apply ci_variant_cons in H'. destruct H' as [_ Hv].
    simpl. rewrite (clash_variant lit (p :: t) (c :: v) H), (IH v Hv). reflexivity.
Qed.

Lemma span_class_app f : forall x y,
  forallb f x = true ->
  match y with [] => True | c :: _ => f c = false end ->
  span_class f (x ++ y) = (x, y).
Proof.
  induction x as [|d x IH]; intros y Hx Hy.
  - destruct y as [|c y]; [reflexivity|]. simpl. rewrite Hy. reflexivity.
  - simpl in Hx. apply andb_prop in Hx. destruct Hx as [Hd Hx].
    simpl. rewrite Hd, (IH y Hx Hy). reflexivity.
Qed.

Lemma match_details_pattern_starts name s :
  starts_ci (u "<details") s = false -> match_details_pattern name s = None.
Proof.
  intros H. apply starts_ci_false in H. unfold match_details_pattern.
  rewrite H. reflexivity.
Qed.

Lemma sub_details_from_skip name : forall x y,
  sub_details_from name (length x) (x ++ y) = sub_details_from name 0 y.
Proof.
  induction x as [|c x IH]; intros y; [reflexivity|]. simpl. apply IH.
Qed.

Lemma sub_details_from_cons name c s :
  sub_details_from name 0 (c :: s)
  = match match_details_pattern name (c :: s) with
    | Some m => sub_details_from name (pred (length m)) s
    | None => c :: sub_details_from name 0 s
    end.
Proof. reflexivity. Qed.

(** The substitution leaves alone a stretch in which no block opens. *)
Lemma sub_details_quiet name y : forall x,
  quiet_before (u "<details") x y = true ->
  sub_details_from name 0 (x ++ y) = x ++ sub_details_from name 0 y.
Proof.
  induction x as [|c x IH]; intros H; [reflexivity|].
  apply quiet_before_cons in H. destruct H as [Hc H].
  simpl app. rewrite sub_details_from_cons.
  rewrite (match_details_pattern_starts name _ Hc), (IH H). reflexivity.
Qed.

Lemma sub_details_match name m rest :
  m <> [] -> match_details_pattern name (m ++ rest) = Some m ->
  sub_details_from name 0 (m ++ rest) = sub_details_from name 0 rest.
Proof.
  intros Hm H. destruct m as [|c m]; [contradiction|].
  simpl app in *. rewrite sub_details_from_cons, H. simpl pred.
  apply sub_details_from_skip.
Qed.

Lemma block_text_app b rest :
  block_text b ++ rest
  = d_open b ++ d_gap b ++ d_type b ++ d_attrs b ++ 62%N :: d_body b ++ d_close b ++ rest.
Proof.
  unfold block_text. rewrite <- !app_assoc. simpl. rewrite <- !app_assoc. reflexivity.
Qed.

Lemma details_literal_facts :
  head_not_space (u "<details") = true /\
  dead_in (u "<details") (u "details") = true /\
  suffix_clash (u "<details") [62%N] = true /\
  dead_in (u "<details") [62%N] = true /\
  suffix_clash (u "<details") (u "</details>") = true /\
  dead_in (u "<details") (u "</details>") = true /\
  suffix_clash (u "<details") [60%N] = true /\
  suffix_clash (u "</details>") (u "</details>") = true.
Proof. repeat split; vm_compute; reflexivity. Qed.

Lemma type_literal_facts name :
  name = u "reasoning" \/ name = u "code_interpreter" ->
  spaceless (type_literal name) = true /\
  dead_in (u "<details") (type_literal name) = true /\
  type_literal name <> [].
Proof.
  intros [->| ->]; repeat split; try (vm_compute; reflexivity);
    vm_compute; discriminate.
Qed.

Lemma type_literals_clash name other :
  name = u "reasoning" \/ name = u "code_interpreter" ->
  other = u "reasoning" \/ other = u "code_interpreter" ->
  name <> other ->
  clash (type_literal name) (type_literal other) = true.
Proof.
  intros [->| ->] [->| ->] N; try (exfalso; apply N; reflexivity);
    vm_compute; reflexivity.
Qed.

(** The pattern of a type matches a well-formed block of that type, from
    its opening to its closing. *)
Lemma match_own_block name b rest :
  name = u "reasoning" \/ name = u "code_interpreter" ->
  well_formed_block name b ->
  match_details_pattern name (block_text b ++ rest) = Some (block_text b).
Proof.
  intros Hn (Ho & Hg & Hgs & Hty & Hat & _ & _ & Hb & Hc).
  destruct details_literal_facts as (_ & _ & _ & _ & _ & _ & _ & Sc).
  destruct (type_literal_facts name Hn) as (Sp & _ & Tn).
  rewrite block_text_app. unfold block_text.
  destruct b as [o gap ty attrs body close]. cbn [d_open d_gap d_type d_attrs d_body d_close] in *.
  unfold match_details_pattern.
  rewrite (match_literal_app (u "<details") o _ Ho).
  assert (Hhead : match ty ++ attrs ++ 62%N :: body ++ close ++ rest with
                  | [] => True
                  | c :: _ => isspace c = false
                  end).
  { pose proof (variant_spaceless _ _ Sp Hty) as V.
    destruct ty as [|c ty]; [exfalso; exact (variant_nonempty _ _ Tn Hty eq_refl)|].
    simpl in V. apply andb_prop in V. destruct V as [V _].
    apply negb_true_iff in V. exact V. }
  rewrite (span_class_app isspace gap _ Hgs Hhead).
  destruct gap as [|g gap]; [contradiction|].
  change (u "type=" ++ dq ++ name ++ dq) with (type_literal name).
  rewrite (match_literal_app (type_literal name) ty _ Hty).
  rewrite (span_class_app not_gt attrs (62%N :: body ++ close ++ rest) Hat eq_refl).
  assert (Hq : quiet_before (u "</details>") body (close ++ rest) = true).
  { apply quiet_before_tag; [|exact Hb].
    rewrite (suffix_clash_variant _ _ _ Hc). exact Sc. }
  rewrite (match_lazy_until_quiet (u "</details>") (close ++ rest) close rest
             (match_literal_app _ close rest Hc) body Hq).
  reflexivity.
Qed.

(** Inside a well-formed block, after its first character, no block
    opens. *)
Lemma block_quiet name b z :
  name = u "reasoning" \/ name = u "code_interpreter" ->
  well_formed_block name b ->
  exists c t, block_text b = c :: t /\ quiet_before (u "<details") t z = true.
Proof.
  intros Hn (Ho & Hg & Hgs & Hty & Hat & Hoa & Hob & Hb & Hc).
  destruct details_literal_facts as (Hs & Dd & Sg & Dg & Se & De & _ & _).
  destruct (type_literal_facts name Hn) as (_ & Dt & _).
  destruct b as [o gap ty attrs body close]. unfold block_text.
  cbn [d_open d_gap d_type d_attrs d_body d_close] in *.
  destruct o as [|c o]; [apply ci_variant_nil_r in Ho; contradiction|].
  change (u "<details") with (60%N :: u "details") in Ho.
  apply ci_variant_cons in Ho. destruct Ho as [_ Ho].
  exists c, (o ++ gap ++ ty ++ attrs ++ 62%N :: body ++ close).
  split; [reflexivity|].
  apply quiet_before_app.
  { apply quiet_before_dead. rewrite (dead_in_variant _ _ _ Ho). exact Dd. }
  apply quiet_before_app.
  { apply quiet_before_spaces; assumption. }
  apply quiet_before_app.
  { apply quiet_before_dead. rewrite (dead_in_variant _ _ _ Hty). exact Dt. }
  apply quiet_before_app.
  { change ((62%N :: body ++ close) ++ z) with ([62%N] ++ (body ++ close) ++ z).
    apply quiet_before_tag; assumption. }
  change (62%N :: body ++ close) with ([62%N] ++ body ++ close).
  apply quiet_before_app.
  { apply quiet_before_dead. exact Dg. }
  apply quiet_before_app.
  { apply quiet_before_tag; [|exact Hob].
    rewrite (suffix_clash_variant _ _ _ Hc). exact Se. }
  apply quiet_before_dead. rewrite (dead_in_variant _ _ _ Hc). exact De.
Qed.

(** The pattern of another type does not match at the opening of the
    block. *)
Lemma match_other_block name other b rest :
  name = u "reasoning" \/ name = u "code_interpreter" ->
  other = u "reasoning" \/ other = u "code_interpreter" ->
  name <> other ->
  well_formed_block other b ->
  match_details_pattern name (block_text b ++ rest) = None.
Proof.
  intros Hn Hother Hne (Ho & Hg & Hgs & Hty & _).
  destruct (type_literal_facts other Hother) as (Sp & _ & Tn).
  rewrite block_text_app.
  destruct b as [o gap ty attrs body close]. cbn [d_open d_gap d_type d_attrs d_body d_close] in *.
  unfold match_details_pattern.
  rewrite (match_literal_app (u "<details") o _ Ho).
  assert (Hhead : match ty ++ attrs ++ 62%N :: body ++ close ++ rest with
                  | [] => True
                  | c :: _ => isspace c = false
                  end).
  { pose proof (variant_spaceless _ _ Sp Hty) as V.
    destruct ty as [|c ty]; [exfalso; exact (variant_nonempty _ _ Tn Hty eq_refl)|].
    simpl in V. apply andb_prop in V. destruct V as [V _].
    apply negb_true_iff in V. exact V. }
  rewrite (span_class_app isspace gap _ Hgs Hhead).
  destruct gap as [|g gap]; [contradiction|].
  change (u "type=" ++ dq ++ name ++ dq) with (type_literal name).
  assert (Hc : starts_ci (type_literal name)
                 (ty ++ attrs ++ 62%N :: body ++ close ++ rest) = false).
  { apply clash_starts. rewrite (clash_variant _ _ _ Hty).
    apply type_literals_clash; assumption. }
  apply starts_ci_false in Hc. rewrite Hc. reflexivity.
Qed.

Lemma text_eqb_eq : forall a b, text_eqb a b = true <-> a = b.
Proof.
  induction a as [|x a IH]; intros [|y b]; simpl; split; intros H;
    try reflexivity; try discriminate.
  - apply andb_prop in H. destruct H as [Hx H].
    apply char_eqb_eq in Hx. apply IH in H. subst. reflexivity.
  - inversion H; subst. rewrite char_eqb_refl. simpl. apply IH. reflexivity.
Qed.

Lemma text_of_leading segs :
  text_of segs = leading_plain segs ++ text_of (after_plain segs).
Proof.
  unfold text_of. induction segs as [|[p|n b] segs IH]; try reflexivity.
  simpl. rewrite IH, app_assoc. reflexivity.
Qed.

Lemma plain_of_leading segs :
  plain_of segs = leading_plain segs ++ plain_of (after_plain segs).
Proof.
  unfold plain_of. induction segs as [|[p|n b] segs IH]; try reflexivity.
  simpl. rewrite IH, app_assoc. reflexivity.
Qed.

Lemma after_plain_head segs :
  after_plain segs = [] \/
  exists n b rest, after_plain segs = Details n b :: rest.
Proof.
  induction segs as [|[p|n b] segs IH]; [left; reflexivity|exact IH|].
  right. exists n, b, segs. reflexivity.
Qed.

Lemma Forall_after_plain (P : segment -> Prop) segs :
  Forall P segs -> Forall P (after_plain segs).
Proof.
  induction segs as [|[p|n b] segs IH]; intros H; try exact H.
  inversion H; subst. simpl. auto.
Qed.

(** No block opens inside plain text, whatever segments follow it. *)
Lemma plain_quiet p segs :
  occurs_ci (u "<details") (p ++ plain_of segs) = false ->
  Forall well_formed_segment segs ->
  quiet_before (u "<details") p (text_of segs) = true.
Proof.
  intros Hfree Hwf.
  destruct details_literal_facts as (_ & _ & _ & _ & _ & _ & Sl & _).
  rewrite plain_of_leading, app_assoc in Hfree.
  apply occurs_ci_false_app_l in Hfree.
  rewrite text_of_leading. apply quiet_before_app_inv.
  destruct (after_plain_head segs) as [E|(n & b & rest & E)].
  - rewrite E. simpl. apply quiet_before_end. exact Hfree.
  - pose proof (Forall_after_plain _ _ Hwf) as W. rewrite E in W.
    inversion W as [|? ? Hs _]; subst. simpl in Hs. destruct Hs as [_ (Ho & _)].
    rewrite E. simpl. rewrite block_text_app.
    destruct (d_open b) as [|c o]; [apply ci_variant_nil_r in Ho; contradiction|].
    change (u "<details") with (60%N :: u "details") in Ho.
    apply ci_variant_cons in Ho. destruct Ho as [Hc _].
    change ((c :: o) ++ d_gap b ++ d_type b ++ d_attrs b ++
            62%N :: d_body b ++ d_close b ++ text_of rest)
      with ([c] ++ o ++ d_gap b ++ d_type b ++ d_attrs b ++
            62%N :: d_body b ++ d_close b ++ text_of rest).
    apply quiet_before_tag; [|exact Hfree].
    rewrite (suffix_clash_variant (u "<details") [60%N] [c]); [exact Sl|].
    apply ci_variant_cons. split; [exact Hc|apply ci_variant_nil_l; reflexivity].
Qed.

Lemma well_formed_tail s segs : well_formed (s :: segs) -> well_formed segs.
Proof.
  intros [Hf Hw]. inversion Hw; subst. split; [|assumption].
  destruct s as [p|n b]; simpl in Hf.
  - exact (occurs_ci_false_app_r _ _ _ Hf).
  - exact Hf.
Qed.

(** One pass of the removal: the blocks of the type are gone, and the rest
    of the document is as it was. *)
Lemma sub_details_pass name :
  name = u "reasoning" \/ name = u "code_interpreter" ->
  forall segs, well_formed segs ->
  sub_details_from name 0 (text_of segs) = text_of (drop_type name segs).
Proof.
  intros Hn. induction segs as [|s segs IH]; intros Hwf; [reflexivity|].
  pose proof (well_formed_tail _ _ Hwf) as Hwf'.
  destruct Hwf as [Hf Hw]. inversion Hw as [|? ? Hs Hw']; subst.
  destruct s as [p|n b].
  - simpl in Hf. change (text_of (Plain p :: segs)) with (p ++ text_of segs).
    rewrite (sub_details_quiet name _ p (plain_quiet p segs Hf Hw')).
    rewrite (IH Hwf'). reflexivity.
  - destruct Hs as [Hv Hb].
    change (text_of (Details n b :: segs)) with (block_text b ++ text_of segs).
    unfold drop_type. simpl filter. fold (drop_type name segs).
    destruct (text_eqb n name) eqn:E.
    + apply text_eqb_eq in E. subst n. simpl.
      rewrite sub_details_match.
      * apply IH. exact Hwf'.
      * destruct (block_quiet name b [] Hn Hb) as (c & t & Et & _).
        rewrite Et. discriminate.
      * apply match_own_block; assumption.
    + assert (Hne : name <> n).
      { intros ->. rewrite (proj2 (text_eqb_eq n n) eq_refl) in E. discriminate. }
      simpl.
      pose proof (match_other_block name n b (text_of segs) Hn Hv Hne Hb) as M.
      destruct (block_quiet n b (text_of segs) Hv Hb) as (c & t & Et & Q).
      change (text_of (Details n b :: drop_type name segs))
        with (block_text b ++ text_of (drop_type name segs)).
      rewrite Et in *. simpl app in *.
      rewrite sub_details_from_cons, M.
      rewrite (sub_details_quiet name _ t Q), (IH Hwf'). reflexivity.
Qed.

Lemma plain_of_drop_type name segs : plain_of (drop_type name segs) = plain_of segs.
Proof.
  unfold plain_of, drop_type.
  induction segs as [|[p|n b] segs IH]; [reflexivity| |].
  - simpl. rewrite IH. reflexivity.
  - simpl. destruct (negb (text_eqb n name)); exact IH.
Qed.

Lemma well_formed_drop_type name segs :
  well_formed segs -> well_formed (drop_type name segs).
Proof.
  intros [Hf Hw]. split.
  - rewrite plain_of_drop_type. exact Hf.
  - unfold drop_type. rewrite Forall_forall in *.
    intros s Hs. apply filter_In in Hs. apply Hw. tauto.
Qed.

Lemma text_of_without_blocks segs :
  Forall well_formed_segment segs ->
  text_of (drop_type (u "code_interpreter") (drop_type (u "reasoning") segs))
  = plain_of segs.
Proof.
  unfold text_of, plain_of, drop_type.
  induction segs as [|[p|n b] segs IH]; intros H; [reflexivity| |];
    inversion H as [|? ? Hs H']; subst.
  - simpl. rewrite (IH H'). reflexivity.
  - destruct Hs as [[->| ->] _]; simpl; exact (IH H').
Qed.

Lemma span_class_split f : forall s a b, span_class f s = (a, b) -> s = a ++ b.
Proof.
  induction s as [|c s IH]; intros a b H; simpl in H.
  - inversion H. reflexivity.
  - destruct (f c).
    + destruct (span_class f s) as [t r] eqn:E. inversion H; subst.
      simpl. rewrite (IH t b eq_refl). reflexivity.
    + inversion H. reflexivity.
Qed.

Lemma occurs_ci_app_r lit x y :
  occurs_ci lit y = true -> occurs_ci lit (x ++ y) = true.
Proof.
  intros H. destruct (occurs_ci lit (x ++ y)) eqn:E; [reflexivity|].
  apply occurs_ci_false_app_r in E. congruence.
Qed.

Lemma sub_details_unmatched name : forall s,
  (forall s1 s2, s = s1 ++ s2 -> match_details_pattern name s2 = None) ->
  sub_details_from name 0 s = s.
Proof.
  induction s as [|c s IH]; intros H; [reflexivity|].
  rewrite sub_details_from_cons, (H [] (c :: s) eq_refl), IH; [reflexivity|].
  intros s1 s2 E. apply (H (c :: s1) s2). rewrite E. reflexivity.
Qed.

(** A match of the pattern of a type holds the attribute of the type. *)
Lemma match_details_pattern_type name s m :
  match_details_pattern name s = Some m ->
  occurs_ci (type_literal name) s = true.
Proof.
  unfold match_details_pattern. intros H.
  destruct (match_literal (u "<details") s) as [[mo r1]|] eqn:E1; [|discriminate].
  destruct (span_class isspace r1) as [sp r2] eqn:E2.
  destruct sp as [|g sp]; [discriminate|].
  change (u "type=" ++ dq ++ name ++ dq) with (type_literal name) in H.
  destruct (match_literal (type_literal name) r2) as [[mt r3]|] eqn:E3;
    [|discriminate].
  apply match_literal_split in E1. destruct E1 as (-> & _).
  apply span_class_split in E2. subst r1.
  apply match_literal_split in E3. destruct E3 as (-> & _ & Hv).
  rewrite app_assoc. apply occurs_ci_variant. exact Hv.
Qed.

(** C8 as it is stated fails.  The text below is plain text, one block of
    type "reasoning", and plain text; the block is well formed and neither
    stretch of plain text holds the opening of a block.  Once the block is
    removed, the plain text before it and the plain text after it come
    together as a block of type "code_interpreter", which the second
    substitution removes: plain text is deleted. *)
Lemma glued_plain_text_is_removed :
  let block := {| d_open := u "<details";
                  d_gap := u " ";
                  d_type := type_literal (u "reasoning");
                  d_attrs := [];
                  d_body := u "r";
                  d_close := u "</details>" |} in
  let before := u "keep <det" in
  let after := u "ails type=" ++ dq ++ u "code_interpreter" ++ dq
               ++ u ">not a block</details> end" in
  let segs := [Plain before; Details (u "reasoning") block; Plain after] in
  well_formed_block (u "reasoning") block /\
  occurs_ci (u "<details") before = false /\
  occurs_ci (u "<details") after = false /\
  text_of segs
  = u "keep <det<details type=" ++ dq ++ u "reasoning" ++ dq
    ++ u ">r</details>ails type=" ++ dq ++ u "code_interpreter" ++ dq
    ++ u ">not a block</details> end" /\
  remove_details [u "reasoning"; u "code_interpreter"] (text_of segs)
  = u "keep  end" /\
  remove_details [u "reasoning"; u "code_interpreter"] (text_of segs)
  <> plain_of segs.
Proof.
  intros block before after segs.
  split.
  { repeat split; try (vm_compute; reflexivity). vm_compute. discriminate. }
  split; [vm_compute; reflexivity|].
  split; [vm_compute; reflexivity|].
  split; [vm_compute; reflexivity|].
  split; [vm_compute; reflexivity|].
  vm_compute. discriminate.
Qed.

(** C8.  Take a document made of plain text and of rendered blocks of the
    types "reasoning" and "code_interpreter", in any number and order: each
    block has its tags and its type written in any letter case, any other
    attributes before the ">", and a body without an opening or a closing of
    a block; the plain text, its stretches put together, has no opening of a
    block.  Removing the two types deletes every block from its opening to
    its closing, and what is left is the plain text, character for character
    and in its order.  And a text that holds the attribute of neither type,
    in any letter case, comes back as it is, blocks of other types
    included. *)
Theorem details_blocks_removed :
  (forall segs, well_formed segs ->
     remove_details [u "reasoning"; u "code_interpreter"] (text_of segs)
     = plain_of segs) /\
  (forall content,
     occurs_ci (type_literal (u "reasoning")) content = false ->
     occurs_ci (type_literal (u "code_interpreter")) content = false ->
     remove_details [u "reasoning"; u "code_interpreter"] content = content).
Proof.
  split.
  - intros segs H. unfold remove_details. cbn [fold_left].
    rewrite (sub_details_pass (u "reasoning") (or_introl eq_refl) segs H).
    rewrite (sub_details_pass (u "code_interpreter") (or_intror eq_refl) _
               (well_formed_drop_type (u "reasoning") segs H)).
    apply text_of_without_blocks. exact (proj2 H).
  - intros content Hr Hc.
    assert (U : forall name, occurs_ci (type_literal name) content = false ->
                sub_details_from name 0 content = content).
    { intros name Hn. apply sub_details_unmatched. intros s1 s2 E. subst content.
      destruct (match_details_pattern name s2) as [m|] eqn:M; [|reflexivity].
      apply match_details_pattern_type in M.
      apply occurs_ci_false_app_r in Hn. congruence. }
    unfold remove_details. cbn [fold_left].
    rewrite (U (u "reasoning") Hr). exact (U (u "code_interpreter") Hc).
Qed.

Lemma details_blocks_removed_witness :
  remove_details [u "reasoning"; u "code_interpreter"] (text_of test_document)
  = plain_of test_document /\
  (let content := u "a <details type=" ++ dq ++ u "note" ++ dq
                  ++ u ">kept</details> b" in
   remove_details [u "reasoning"; u "code_interpreter"] content = content).
Proof.
  split.
  - apply (proj1 details_blocks_removed test_document).
    split; [vm_compute; reflexivity|].
    assert (R : well_formed_block (u "reasoning") test_reasoning_block).
    { repeat split; try (vm_compute; reflexivity). vm_compute. discriminate. }
    assert (K : well_formed_block (u "code_interpreter") test_code_block).
    { repeat split; try (vm_compute; reflexivity). vm_compute. discriminate. }
    repeat apply Forall_cons; try apply Forall_nil; try exact I.
    + split; [left; reflexivity|exact R].
    + split; [right; reflexivity|exact K].
  - apply (proj2 details_blocks_removed); vm_compute; reflexivity.
Defined.

(** The blocks of the test again, the second one in capitals and with more
    whitespace: the same plain text is left. *)
Lemma details_removed_in_any_case :
  remove_details [u "reasoning"; u "code_interpreter"]
    (u "before " ++ u "<details type=" ++ dq ++ u "reasoning" ++ dq
       ++ u " done=" ++ dq ++ u "true" ++ dq ++ u ">x</details>"
       ++ u " between "
       ++ u "<DETAILS   TYPE=" ++ dq ++ u "Code_Interpreter" ++ dq
       ++ u " id=" ++ dq ++ u "7" ++ dq ++ u ">" ++ nl ++ u "y</Details>"
       ++ u " after")
  = u "before " ++ u " between " ++ u " after".
Proof. vm_compute. reflexivity. Qed.

(** ** Further properties of the code *)

(** *** The result of process_content *)

Lemma fold_add_durations : forall bs acc,
  Forall (fun b => duration b = 1%Z) bs ->
  fold_left Z.add (map duration bs) acc = (acc + Z.of_nat (length bs))%Z.
Proof.
  induction bs as [|b bs IH]; intros acc H; [simpl; lia|].
  inversion H as [|? ? Hb Hbs]; subst. simpl map. simpl fold_left.
  rewrite (IH _ Hbs), Hb. simpl length. lia.
Qed.

Lemma detect_durations content :
  Forall (fun b => duration b = 1%Z) (detect_reasoning_tags content).
Proof. apply detect_invariant. intros. reflexivity. Qed.

(** The total reasoning time that [process_content] reports is the number
    of blocks it found. *)
Theorem total_time_counts_blocks (content : text) :
  total_reasoning_time (process_content content)
  = Z.of_nat (length (reasoning_blocks (process_content content))).
Proof.
  unfold process_content. simpl.
  rewrite (fold_add_durations _ 0%Z (detect_durations content)). lia.
Qed.

Lemma normalized_is_settled s :
  sub_blank_lines (strip (sub_blank_lines s)) = strip (sub_blank_lines s).
Proof.
  apply settled_sub_blank_lines.
  destruct (strip_inside (sub_blank_lines s)) as (a & z & E).
  pose proof (sub_blank_lines_settled s) as H. rewrite E in H.
  apply settled_app_r in H. apply settled_app_l in H. exact H.
Qed.

(** The main content is in normal form whatever the text was: trimming it
    or collapsing its blank lines again changes nothing. *)
Theorem main_content_normal (content : text) :
  let main := main_content (process_content content) in
  strip main = main /\ sub_blank_lines main = main.
Proof.
  unfold process_content. simpl. split.
  - apply strip_idem.
  - apply normalized_is_settled.
Qed.

Lemma replace_from_length old : forall s k,
  length (replace_from old [] k s) <= length s.
Proof.
  induction s as [|c s IH]; intros k; [reflexivity|].
  destruct k as [|k].
  - rewrite replace_from_cons. destruct (startswith (c :: s) old).
    + simpl app. specialize (IH (pred (length old))). simpl. lia.
    + specialize (IH 0). simpl. lia.
  - specialize (IH k). simpl. lia.
Qed.

Lemma replace_length s old : length (replace s old []) <= length s.
Proof.
  unfold replace. destruct old as [|c old].
  - simpl. induction s as [|d s IH]; simpl; lia.
  - apply replace_from_length.
Qed.

Lemma fold_replace_length : forall (bs : list block) s,
  length (fold_left (fun acc b => replace acc (original_match b) []) bs s)
  <= length s.
Proof.
  induction bs as [|b bs IH]; intros s; [reflexivity|].
  simpl. specialize (IH (replace s (original_match b) [])).
  pose proof (replace_length s (original_match b)). lia.
Qed.

Lemma sub_blank_lines_from_length : forall s k,
  k <= length s -> length (sub_blank_lines_from k s) + k <= length s.
Proof.
  induction s as [|c s IH]; intros k Hk.
  - simpl in Hk. assert (k = 0) by lia. subst. reflexivity.
  - destruct k as [|k].
    + rewrite sub_blank_lines_from_cons. destruct (char_eqb c 10%N).
      * destruct (match_spaces_newline s) as [n|] eqn:E.
        -- destruct (match_spaces_newline_spaces _ _ E) as [Hn _].
           specialize (IH n (proj2 Hn)). simpl. lia.
        -- specialize (IH 0 (Nat.le_0_l _)). simpl. lia.
      * specialize (IH 0 (Nat.le_0_l _)). simpl. lia.
    + simpl in Hk. specialize (IH k ltac:(lia)). simpl. lia.
Qed.

Lemma lstrip_length s : length (lstrip s) <= length s.
Proof.
  induction s as [|c s IH]; [reflexivity|].
  simpl. destruct (isspace c); simpl; lia.
Qed.

Lemma strip_length s : length (strip s) <= length s.
Proof.
  unfold strip, rstrip. rewrite length_rev.
  pose proof (lstrip_length (rev (lstrip s))) as H. rewrite length_rev in H.
  pose proof (lstrip_length s). lia.
Qed.

(** Processing never adds characters: the main content is at most as long
    as the text. *)
Theorem main_content_not_longer (content : text) :
  length (main_content (process_content content)) <= length content.
Proof.
  unfold process_content. simpl.
  pose proof (strip_length (sub_blank_lines
    (fold_left (fun acc b => replace acc (original_match b) [])
       (detect_reasoning_tags content) content))) as H1.
  pose proof (sub_blank_lines_from_length
    (fold_left (fun acc b => replace acc (original_match b) [])
       (detect_reasoning_tags content) content) 0 (Nat.le_0_l _)) as H2.
  pose proof (fold_replace_length (detect_reasoning_tags content) content) as H3.
  unfold sub_blank_lines in *. lia.
Qed.

Lemma visible_nil_spaces : forall s, visible s = [] -> forallb isspace s = true.
Proof.
  unfold visible. induction s as [|c s IH]; intros H; [reflexivity|].
  simpl in H. destruct (isspace c) eqn:E; simpl in H; [|discriminate].
  simpl. rewrite E. auto.
Qed.

Lemma spaces_visible : forall s, forallb isspace s = true -> visible s = [].
Proof.
  unfold visible. induction s as [|c s IH]; intros H; [reflexivity|].
  simpl in H. apply andb_prop in H. destruct H as [Hc H].
  simpl. rewrite Hc. simpl. auto.
Qed.

(** A text of whitespace only, the empty text too, has no span, an empty
    main content and an empty document. *)
Theorem blank_text_renders_nothing (content : text) :
  forallb isspace content = true ->
  detect_reasoning_tags content = [] /\
  main_content (process_content content) = [] /\
  generate_html_output (process_content content) = [].
Proof.
  intros H.
  assert (D : detect_reasoning_tags content = []).
  { unfold detect_reasoning_tags. apply fold_scan_blank. intros tags m Ht Hm.
    exfalso. pose proof (table_meets _ _ Ht Ht) as M. unfold meets in M.
    apply andb_prop in M. destruct M as [M _].
    apply andb_prop in M. destruct M as [Hs _].
    pose proof (finditer_quiet (fst tags) (snd tags) [] content
                  (quiet_before_spaces _ _ content Hs H)) as F.
    rewrite app_nil_r in F. rewrite F in Hm. exact Hm. }
  assert (M : main_content (process_content content) = []).
  { unfold process_content. rewrite D. simpl.
    apply strip_spaces. apply visible_nil_spaces.
    rewrite visible_sub_blank_lines. apply spaces_visible. exact H. }
  split; [exact D|]. split; [exact M|].
  unfold generate_html_output. rewrite M.
  assert (B : reasoning_blocks (process_content content) = []) by exact D.
  rewrite B. reflexivity.
Qed.

Lemma blank_text_renders_nothing_witness :
  detect_reasoning_tags [32; 10; 9; 10]%N = [] /\
  main_content (process_content [32; 10; 9; 10]%N) = [] /\
  generate_html_output (process_content [32; 10; 9; 10]%N) = [].
Proof.
  apply (blank_text_renders_nothing [32; 10; 9; 10]%N). reflexivity.
Defined.

(** *** The layout of the document *)

Lemma join_app sep : forall l1 l2,
  join sep (l1 ++ l2)
  = join sep l1
    ++ (match l1, l2 with _ :: _, _ :: _ => sep | _, _ => [] end)
    ++ join sep l2.
Proof.
  induction l1 as [|p l1 IH]; intros l2; [reflexivity|].
  destruct l1 as [|q l1].
  - destruct l2 as [|r l2]; simpl; [rewrite app_nil_r; reflexivity|reflexivity].
  - specialize (IH l2). simpl app in *.
    change (join sep (p :: q :: l1 ++ l2)) with (p ++ sep ++ join sep (q :: l1 ++ l2)).
    change (join sep (p :: q :: l1)) with (p ++ sep ++ join sep (q :: l1)).
    rewrite IH. destruct l2; rewrite <- !app_assoc; reflexivity.
Qed.

Lemma html_block_nonempty b : html_block b <> [].
Proof. unfold html_block. discriminate. Qed.

Lemma join_nil_iff sep : forall parts,
  (forall p, In p parts -> p <> []) -> join sep parts = [] -> parts = [].
Proof.
  intros [|p parts] H E; [reflexivity|]. exfalso.
  apply (H p (or_introl eq_refl)).
  destruct parts as [|q parts]; [exact E|].
  simpl in E. apply app_eq_nil in E. tauto.
Qed.

(** The document is the rendered blocks, two newlines between them, then
    the main content, after two newlines when there are blocks; the main
    content is left out when it is empty.  The document is empty only when
    there is neither a block nor a main content. *)
Theorem document_layout (processed_data : processed) :
  generate_html_output processed_data
  = join (nl ++ nl) (map html_block (reasoning_blocks processed_data))
    ++ (match reasoning_blocks processed_data, main_content processed_data with
        | _ :: _, _ :: _ => nl ++ nl
        | _, _ => []
        end)
    ++ main_content processed_data /\
  (generate_html_output processed_data = [] <->
   reasoning_blocks processed_data = [] /\ main_content processed_data = []).
Proof.
  assert (L : generate_html_output processed_data
              = join (nl ++ nl) (map html_block (reasoning_blocks processed_data))
                ++ (match reasoning_blocks processed_data,
                          main_content processed_data with
                    | _ :: _, _ :: _ => nl ++ nl
                    | _, _ => []
                    end)
                ++ main_content processed_data).
  { unfold generate_html_output.
    destruct (main_content processed_data) as [|c m] eqn:Em.
    - simpl nonempty. cbv iota.
      destruct (reasoning_blocks processed_data); rewrite !app_nil_r; reflexivity.
    - simpl nonempty. cbv iota. rewrite join_app.
      destruct (reasoning_blocks processed_data); reflexivity. }
  split; [exact L|]. split.
  - intros E. rewrite L in E. apply app_eq_nil in E. destruct E as [E1 E2].
    apply app_eq_nil in E2. destruct E2 as [_ E2]. split; [|exact E2].
    apply join_nil_iff in E1.
    + destruct (reasoning_blocks processed_data); [reflexivity|discriminate].
    + intros p Hp. apply in_map_iff in Hp. destruct Hp as (b & <- & _).
      apply html_block_nonempty.
  - intros [E1 E2]. rewrite L, E1, E2. reflexivity.
Qed.

(** *** What a span holds *)

Lemma match_lazy_until_free lit : lit <> [] -> forall s g m rest,
  match_lazy_until lit s = Some (g, m, rest) -> occurs_ci lit g = false.
Proof.
  intros Hl.
  assert (Hnil : occurs_ci lit [] = false).
  { destruct lit; [contradiction|reflexivity]. }
  induction s as [|c s IH]; intros g m rest H; simpl in H.
  - destruct (match_literal lit []) as [[m' r']|]; [|discriminate].
    inversion H; subst. exact Hnil.
  - destruct (match_literal lit (c :: s)) as [[m' r']|] eqn:Hm.
    + inversion H; subst. exact Hnil.
    + destruct (match_lazy_until lit s) as [[[g' m'] r']|] eqn:Hz; [|discriminate].
      inversion H; subst. pose proof (IH _ _ _ eq_refl) as Hg.
      apply match_lazy_until_split in Hz. destruct Hz as [Hs _].
      simpl. rewrite Hg, orb_false_r.
      destruct (starts_ci lit (c :: g')) eqn:E; [|reflexivity].
      pose proof (starts_ci_app_l lit (c :: g') (m ++ rest) E) as E'.
      simpl app in E'. rewrite <- Hs in E'.
      apply starts_ci_false in Hm. congruence.
Qed.

Lemma match_tag_pattern_free st en s m :
  en <> [] -> match_tag_pattern st en s = Some m ->
  occurs_ci en (group1 m) = false.
Proof.
  unfold match_tag_pattern. intros He H.
  destruct (match_literal st s) as [[ms r]|]; [|discriminate].
  destruct (match_lazy_until en r) as [[[g me] r']|] eqn:E; [|discriminate].
  inversion H; subst. simpl. exact (match_lazy_until_free en He _ _ _ _ E).
Qed.

Lemma finditer_from_free st en m : en <> [] -> forall s skip,
  In m (finditer_from st en skip s) -> occurs_ci en (group1 m) = false.
Proof.
  intros He. induction s as [|c s IH]; intros skip H; [contradiction|].
  simpl in H. destruct skip as [|k]; [|exact (IH _ H)].
  destruct (match_tag_pattern st en (c :: s)) as [m'|] eqn:Hm; [|exact (IH _ H)].
  destruct H as [->|H]; [|exact (IH _ H)].
  exact (match_tag_pattern_free _ _ _ _ He Hm).
Qed.

Lemma table_end_nonempty tags :
  In tags DEFAULT_REASONING_TAGS -> snd tags <> [].
Proof.
  intros H E.
  assert (T : forallb (fun t => nonempty (snd t)) DEFAULT_REASONING_TAGS = true)
    by (vm_compute; reflexivity).
  rewrite forallb_forall in T. specialize (T _ H). rewrite E in T. discriminate.
Qed.

(** Every span is copied from the text: its matched text is a part of the
    text and its content a part of the matched text.  The match is lazy:
    the content never holds the end literal of its pair, in any letter
    case. *)
Theorem span_content_verbatim (source : text) (b : block) :
  In b (detect_reasoning_tags source) ->
  contains source (original_match b) /\
  contains (original_match b) (content b) /\
  occurs_ci (end_tag b) (content b) = false.
Proof.
  intros Hb. destruct (detect_block_origin source b Hb) as (Ht & m & Hm & Eo & Ec).
  destruct (finditer_from_sound _ _ _ _ _ Hm)
    as (pre & ms & me & post & Es & Eg & _ & _).
  destruct (strip_inside (group1 m)) as (a & z & Ez).
  split; [|split].
  - exists pre, post. rewrite Eo, Eg, Es, <- !app_assoc. reflexivity.
  - exists (ms ++ a), (z ++ me). rewrite Eo, Eg, Ec.
    rewrite Ez at 1. rewrite <- !app_assoc. reflexivity.
  - pose proof (finditer_from_free _ _ _ (table_end_nonempty _ Ht) _ _ Hm) as F.
    simpl in F. rewrite Ec. rewrite Ez in F.
    apply occurs_ci_false_app_r in F. exact (occurs_ci_false_app_l _ _ _ F).
Qed.

Lemma span_content_verbatim_witness :
  let source := u "a <think> x </think> b </think>" in
  let b := reasoning_block (u "<think>") (u "</think>") (u "x") (u "<think> x </think>") 0 in
  contains source (original_match b) /\
  contains (original_match b) (content b) /\
  occurs_ci (end_tag b) (content b) = false.
Proof.
  apply (span_content_verbatim (u "a <think> x </think> b </think>")).
  vm_compute. left. reflexivity.
Defined.

(** *** The two pairs that differ in letter case only *)

Lemma match_literal_casefold : forall l1 l2,
  map casefold l1 = map casefold l2 ->
  forall s, match_literal l1 s = match_literal l2 s.
Proof.
  induction l1 as [|p l1 IH]; intros [|q l2] E s; try discriminate; [reflexivity|].
  simpl in E. inversion E as [[Ep El]].
  destruct s as [|c s]; [reflexivity|].
  simpl. unfold ignorecase_eq. rewrite Ep, (IH l2 El s). reflexivity.
Qed.

Lemma match_lazy_until_casefold l1 l2 :
  map casefold l1 = map casefold l2 ->
  forall s, match_lazy_until l1 s = match_lazy_until l2 s.
Proof.
  intros E. induction s as [|c s IH]; simpl;
    rewrite (match_literal_casefold l1 l2 E); [reflexivity|].
  rewrite IH. reflexivity.
Qed.

Lemma finditer_casefold s1 e1 s2 e2 :
  map casefold s1 = map casefold s2 -> map casefold e1 = map casefold e2 ->
  forall s, finditer s1 e1 s = finditer s2 e2 s.
Proof.
  intros Es Ee.
  assert (M : forall s, match_tag_pattern s1 e1 s = match_tag_pattern s2 e2 s).
  { intros s. unfold match_tag_pattern.
    rewrite (match_literal_casefold s1 s2 Es).
    destruct (match_literal s2 s) as [[ms r]|]; [|reflexivity].
    rewrite (match_lazy_until_casefold e1 e2 Ee). reflexivity. }
  unfold finditer. intros s. generalize 0.
  induction s as [|c s IH]; intros k; [reflexivity|].
  simpl. rewrite M. destruct k as [|k]; [|apply IH].
  destruct (match_tag_pattern s2 e2 (c :: s)); rewrite IH; reflexivity.
Qed.

Lemma detect_block_origin_nonblank source b :
  In b (detect_reasoning_tags source) ->
  exists m, In m (finditer (start_tag b) (end_tag b) source) /\
            original_match b = group0 m /\ content b = strip (group1 m) /\
            strip (group1 m) <> [].
Proof.
  revert b. apply Forall_forall. apply detect_invariant.
  intros [st en] m n Ht Hm Hne. simpl. exists m. auto.
Qed.

(** The pairs "<thought>" and "<Thought>" find the same matches in every
    text, so that every span of one of them comes back a second time as a
    span of the other, with the same content and the same matched text. *)
Theorem thought_spans_come_twice (source : text) (b : block) :
  In b (detect_reasoning_tags source) ->
  (start_tag b, end_tag b) = (u "<thought>", u "</thought>") \/
  (start_tag b, end_tag b) = (u "<Thought>", u "</Thought>") ->
  finditer (u "<thought>") (u "</thought>") source
  = finditer (u "<Thought>") (u "</Thought>") source /\
  exists b', In b' (detect_reasoning_tags source) /\
             start_tag b' <> start_tag b /\
             (start_tag b' = u "<thought>" \/ start_tag b' = u "<Thought>") /\
             content b' = content b /\
             original_match b' = original_match b.
Proof.
  intros Hb Ht.
  assert (F : finditer (u "<thought>") (u "</thought>") source
              = finditer (u "<Thought>") (u "</Thought>") source).
  { apply finditer_casefold; reflexivity. }
  split; [exact F|].
  destruct (detect_block_origin_nonblank source b Hb) as (m & Hm & Eo & Ec & Hne).
  destruct Ht as [Ht|Ht]; inversion Ht as [[Es Ee]]; rewrite Es, Ee in Hm.
  - rewrite F in Hm.
    destruct (detect_complete source (u "<Thought>", u "</Thought>") m
                ltac:(in_table) Hm Hne) as (n & Hn).
    eexists. split; [exact Hn|]. simpl. rewrite Es, Eo, Ec.
    repeat split; auto. vm_compute. discriminate.
  - rewrite <- F in Hm.
    destruct (detect_complete source (u "<thought>", u "</thought>") m
                ltac:(in_table) Hm Hne) as (n & Hn).
    eexists. split; [exact Hn|]. simpl. rewrite Es, Eo, Ec.
    repeat split; auto. vm_compute. discriminate.
Qed.

Lemma thought_spans_come_twice_witness :
  let source := u "<thought>hm</thought>" in
  let b := reasoning_block (u "<thought>") (u "</thought>") (u "hm")
             (u "<thought>hm</thought>") 0 in
  finditer (u "<thought>") (u "</thought>") source
  = finditer (u "<Thought>") (u "</Thought>") source /\
  exists b', In b' (detect_reasoning_tags source) /\
             start_tag b' <> start_tag b /\
             (start_tag b' = u "<thought>" \/ start_tag b' = u "<Thought>") /\
             content b' = content b /\
             original_match b' = original_match b.
Proof.
  apply (thought_spans_come_twice (u "<thought>hm</thought>")).
  - vm_compute. left. reflexivity.
  - left. reflexivity.
Defined.

(** *** The lines of a rendered block *)

Lemma linebreak_free_app a b :
  linebreak_free (a ++ b) = linebreak_free a && linebreak_free b.
Proof. unfold linebreak_free. apply forallb_app. Qed.

Lemma splitlines_from_word rest : forall l line,
  linebreak_free l = true ->
  splitlines_from line (l ++ rest) = splitlines_from (line ++ l) rest.
Proof.
  induction l as [|c l IH]; intros line H.
  - rewrite app_nil_r. reflexivity.
  - unfold linebreak_free in H. simpl in H. apply andb_prop in H.
    destruct H as [Hc H]. apply negb_true_iff in Hc.
    simpl. rewrite Hc. rewrite (IH _ H), <- app_assoc. reflexivity.
Qed.

Lemma splitlines_from_newline line rest :
  splitlines_from line (nl ++ rest) = line :: splitlines_from [] rest.
Proof. reflexivity. Qed.

(** Lines without a line boundary, the last one not empty, joined by
    newlines and split again, are the same lines. *)
Lemma splitlines_join : forall parts,
  Forall (fun l => linebreak_free l = true) parts ->
  last parts [10%N] <> [] ->
  splitlines (join nl parts) = parts.
Proof.
  unfold splitlines.
  induction parts as [|p parts IH]; intros H Hl; [reflexivity|].
  inversion H as [|? ? Hp Hps]; subst.
  destruct parts as [|q parts].
  - simpl join. rewrite <- (app_nil_r p) at 1.
    rewrite (splitlines_from_word [] p [] Hp). simpl.
    simpl in Hl. destruct p; [contradiction|reflexivity].
  - change (join nl (p :: q :: parts)) with (p ++ nl ++ join nl (q :: parts)).
    rewrite (splitlines_from_word _ p [] Hp), splitlines_from_newline.
    f_equal. exact (IH Hps Hl).
Qed.

Lemma splitlines_from_free : forall n s line,
  length s <= n -> linebreak_free line = true ->
  Forall (fun l => linebreak_free l = true) (splitlines_from line s).
Proof.
  induction n as [|n IH]; intros s line Hn Hline.
  - destruct s; [|simpl in Hn; lia]. simpl. destruct line; constructor; auto.
  - destruct s as [|c s].
    + simpl. destruct line; constructor; auto.
    + simpl in Hn. simpl. destruct (is_linebreak c) eqn:Ec.
      * destruct (char_eqb c 13%N).
        -- destruct s as [|d s].
           ++ constructor; [exact Hline|]. apply IH; [simpl; lia|reflexivity].
           ++ destruct (char_eqb d 10%N).
              ** constructor; [exact Hline|].
                 apply IH; [simpl in Hn; lia|reflexivity].
              ** constructor; [exact Hline|]. apply IH; [lia|reflexivity].
        -- constructor; [exact Hline|]. apply IH; [lia|reflexivity].
      * apply IH; [lia|]. rewrite linebreak_free_app, Hline.
        unfold linebreak_free. simpl. rewrite Ec. reflexivity.
Qed.

Lemma splitlines_free s :
  Forall (fun l => linebreak_free l = true) (splitlines s).
Proof. apply (splitlines_from_free (length s)); [lia|reflexivity]. Qed.

Lemma format_line_starts line : startswith (format_line line) (u ">") = true.
Proof.
  unfold format_line. destruct (startswith line (u ">")) eqn:E; [exact E|reflexivity].
Qed.

Lemma format_line_free line :
  linebreak_free line = true -> linebreak_free (format_line line) = true.
Proof.
  intros H. unfold format_line. destruct (negb (startswith line (u ">"))); [|exact H].
  rewrite linebreak_free_app, H. reflexivity.
Qed.

Lemma format_line_nonempty line : format_line line <> [].
Proof.
  pose proof (format_line_starts line) as H.
  destruct (format_line line); [discriminate|discriminate].
Qed.

Lemma uint_digits_free d :
  linebreak_free (u (NilEmpty.string_of_uint d)) = true.
Proof.
  induction d; simpl; try reflexivity; exact IHd.
Qed.

Lemma str_of_int_free n : linebreak_free (str_of_int n) = true.
Proof.
  unfold str_of_int. destruct (Z.to_int n) as [d|d]; simpl.
  - apply uint_digits_free.
  - apply uint_digits_free.
Qed.

Lemma details_line_free d : linebreak_free (details_line d) = true.
Proof.
  unfold details_line. rewrite !linebreak_free_app, str_of_int_free. reflexivity.
Qed.

Lemma summary_line_free d : linebreak_free (summary_line d) = true.
Proof.
  unfold summary_line, summary_text.
  rewrite !linebreak_free_app, str_of_int_free.
  destruct (negb (d =? 1)%Z); reflexivity.
Qed.

(** The rendered block read line by line: the opening with the duration,
    the summary, one line for each line of the content, each of them
    beginning with ">", and the closing.  No line of the content is lost,
    split or merged; an empty content gives one empty line. *)
Theorem rendered_block_lines (b : block) :
  let quoted := map format_line (splitlines (content b)) in
  splitlines (html_block b)
  = [details_line (duration b); summary_line (duration b)]
    ++ (match quoted with [] => [[]] | _ :: _ => quoted end)
    ++ [u "</details>"] /\
  Forall (fun line => startswith line (u ">") = true) quoted /\
  length quoted = length (splitlines (content b)).
Proof.
  intros quoted. split; [|split].
  - assert (E : html_block b
                = join nl ([details_line (duration b); summary_line (duration b)]
                           ++ (match quoted with [] => [[]] | _ :: _ => quoted end)
                           ++ [u "</details>"])).
    { unfold html_block. fold quoted.
      rewrite join_app.
      change (join nl [details_line (duration b); summary_line (duration b)])
        with (details_line (duration b) ++ nl ++ summary_line (duration b)).
      unfold details_line, summary_line. rewrite <- !app_assoc.
      repeat (apply f_equal2; [reflexivity|]).
      clearbody quoted. destruct quoted as [|q quoted'].
      - reflexivity.
      - rewrite join_app. reflexivity. }
    rewrite E. apply splitlines_join.
    + constructor; [apply details_line_free|].
      constructor; [apply summary_line_free|].
      apply Forall_app. split.
      * destruct quoted as [|q quoted'] eqn:Eq; [repeat constructor|].
        rewrite <- Eq. unfold quoted. rewrite Forall_forall.
        intros l Hl. apply in_map_iff in Hl. destruct Hl as (x & <- & Hx).
        apply format_line_free.
        pose proof (splitlines_free (content b)) as F.
        rewrite Forall_forall in F. exact (F x Hx).
      * repeat constructor.
    + rewrite app_assoc, last_last. discriminate.
  - unfold quoted. rewrite Forall_forall. intros l Hl.
    apply in_map_iff in Hl. destruct Hl as (x & <- & _). apply format_line_starts.
  - unfold quoted. apply length_map.
Qed.

Lemma splitlines_one_line c :
  linebreak_free c = true -> c <> [] -> splitlines c = [c].
Proof.
  intros H Hne. unfold splitlines. rewrite <- (app_nil_r c) at 1.
  rewrite (splitlines_from_word [] c [] H). simpl.
  destruct c; [contradiction|reflexivity].
Qed.

(** A block whose content is one line that does not begin with ">" is
    rendered in four lines, the third one being "> " and the content: the
    format that [test_content_serialization] expects. *)
Theorem one_line_block_format (b : block) :
  linebreak_free (content b) = true ->
  content b <> [] ->
  startswith (content b) (u ">") = false ->
  html_block b
  = details_line (duration b) ++ nl ++ summary_line (duration b) ++ nl
    ++ u "> " ++ content b ++ nl ++ u "</details>".
Proof.
  intros Hf Hne Hs. unfold html_block.
  rewrite (splitlines_one_line _ Hf Hne). simpl map. simpl join.
  unfold format_line. rewrite Hs. simpl negb. cbv iota.
  unfold details_line, summary_line. rewrite <- !app_assoc. reflexivity.
Qed.

Lemma one_line_block_format_witness :
  let b := {| type := u "reasoning"; start_tag := u "<thinking>";
              end_tag := u "</thinking>";
              content := u "This is reasoning content";
              started_at := {| clock_call := 0; added_seconds := 0 |};
              ended_at := {| clock_call := 1; added_seconds := 1 |};
              duration := 2; original_match := [] |} in
  html_block b
  = details_line (duration b) ++ nl ++ summary_line (duration b) ++ nl
    ++ u "> " ++ content b ++ nl ++ u "</details>".
Proof.
  intros b. apply (one_line_block_format b).
  - reflexivity.
  - discriminate.
  - reflexivity.
Defined.

(** *** More on the removal of rendered blocks *)

(** A match of the pattern ends with a closing. *)
Lemma match_details_pattern_closing name s m :
  match_details_pattern name s = Some m ->
  occurs_ci (u "</details>") s = true.
Proof.
  unfold match_details_pattern. intros H.
  destruct (match_literal (u "<details") s) as [[mo r1]|] eqn:E1; [|discriminate].
  destruct (span_class isspace r1) as [sp r2] eqn:E2.
  destruct sp as [|g sp]; [discriminate|].
  destruct (match_literal (u "type=" ++ dq ++ name ++ dq) r2) as [[mt r3]|] eqn:E3;
    [|discriminate].
  destruct (span_class not_gt r3) as [at_ r4'] eqn:E4.
  destruct r4' as [|gt r4]; [discriminate|].
  destruct (match_lazy_until (u "</details>") r4) as [[[body mc] rest]|] eqn:E5;
    [|discriminate].
  apply match_literal_split in E1. destruct E1 as (-> & _).
  apply span_class_split in E2. subst r1.
  apply match_literal_split in E3. destruct E3 as (-> & _).
  apply span_class_split in E4. subst r3.
  apply match_lazy_until_split in E5. destruct E5 as (-> & Hc).
  repeat apply occurs_ci_app_r.
  change (gt :: body ++ mc ++ rest) with ([gt] ++ body ++ mc ++ rest).
  apply occurs_ci_app_r. apply occurs_ci_variant. exact Hc.
Qed.

Lemma sub_details_without_tag name s :
  occurs_ci (u "<details") s = false \/ occurs_ci (u "</details>") s = false ->
  sub_details_from name 0 s = s.
Proof.
  intros H. apply sub_details_unmatched. intros s1 s2 E. subst s.
  destruct H as [H|H]; apply occurs_ci_false_app_r in H.
  - apply match_details_pattern_starts. apply occurs_ci_false_starts. exact H.
  - destruct (match_details_pattern name s2) as [m|] eqn:M; [|reflexivity].
    apply match_details_pattern_closing in M. congruence.
Qed.

(** A text without an opening "<details", or without a closing
    "</details>", in any letter case, comes back unchanged, whatever types
    are removed: a block that is opened and never closed stays. *)
Theorem unclosed_details_stay (types_to_remove : list text) (content : text) :
  forallb plain_name types_to_remove = true ->
  occurs_ci (u "<details") content = false \/
  occurs_ci (u "</details>") content = false ->
  remove_details types_to_remove content = content.
Proof.
  intros _ H. unfold remove_details.
  induction types_to_remove as [|name types IH]; [reflexivity|].
  simpl. rewrite (sub_details_without_tag name content H). exact IH.
Qed.

Lemma unclosed_details_stay_witness :
  remove_details [u "reasoning"; u "code_interpreter"]
    (u "a <details type=" ++ dq ++ u "reasoning" ++ dq ++ u "> never closed")
  = u "a <details type=" ++ dq ++ u "reasoning" ++ dq ++ u "> never closed".
Proof.
  apply (unclosed_details_stay [u "reasoning"; u "code_interpreter"]).
  - reflexivity.
  - right. reflexivity.
Defined.

(** Removing one of the two types leaves the blocks of the other type in
    the document, with the plain text, character for character. *)
Theorem one_type_removed (name : text) (segs : list segment) :
  name = u "reasoning" \/ name = u "code_interpreter" ->
  well_formed segs ->
  remove_details [name] (text_of segs) = text_of (drop_type name segs).
Proof.
  intros Hn H. unfold remove_details. simpl.
  exact (sub_details_pass name Hn segs H).
Qed.

Lemma one_type_removed_witness :
  remove_details [u "reasoning"] (text_of test_document)
  = text_of (drop_type (u "reasoning") test_document).
Proof.
  apply (one_type_removed (u "reasoning") test_document).
  - left. reflexivity.
  - split; [vm_compute; reflexivity|].
    assert (R : well_formed_block (u "reasoning") test_reasoning_block).
    { repeat split; try (vm_compute; reflexivity). vm_compute. discriminate. }
    assert (K : well_formed_block (u "code_interpreter") test_code_block).
    { repeat split; try (vm_compute; reflexivity). vm_compute. discriminate. }
    repeat apply Forall_cons; try apply Forall_nil; try exact I.
    + split; [left; reflexivity|exact R].
    + split; [right; reflexivity|exact K].
Defined.

Lemma text_of_without_blocks_swapped segs :
  Forall well_formed_segment segs ->
  text_of (drop_type (u "reasoning") (drop_type (u "code_interpreter") segs))
  = plain_of segs.
Proof.
  unfold text_of, plain_of, drop_type.
  induction segs as [|[p|n b] segs IH]; intros H; [reflexivity| |];
    inversion H as [|? ? Hs H']; subst.
  - simpl. rewrite (IH H'). reflexivity.
  - destruct Hs as [[->| ->] _]; simpl; exact (IH H').
Qed.

(** On a well-formed document the two types can be removed in either order
    with the same result; the result holds no opening of a block, so that
    removing again changes nothing. *)
Theorem removal_order_and_repeat (segs : list segment) :
  well_formed segs ->
  let result := remove_details [u "reasoning"; u "code_interpreter"] (text_of segs) in
  remove_details [u "code_interpreter"; u "reasoning"] (text_of segs) = result /\
  occurs_ci (u "<details") result = false /\
  remove_details [u "reasoning"; u "code_interpreter"] result = result.
Proof.
  intros H result.
  assert (R : result = plain_of segs).
  { unfold result, remove_details. cbn [fold_left].
    rewrite (sub_details_pass (u "reasoning") (or_introl eq_refl) segs H).
    rewrite (sub_details_pass (u "code_interpreter") (or_intror eq_refl) _
               (well_formed_drop_type (u "reasoning") segs H)).
    apply text_of_without_blocks. exact (proj2 H). }
  rewrite R. split; [|split].
  - unfold remove_details. cbn [fold_left].
    rewrite (sub_details_pass (u "code_interpreter") (or_intror eq_refl) segs H).
    rewrite (sub_details_pass (u "reasoning") (or_introl eq_refl) _
               (well_formed_drop_type (u "code_interpreter") segs H)).
    apply text_of_without_blocks_swapped. exact (proj2 H).
  - exact (proj1 H).
  - pose proof (proj1 H) as F. unfold remove_details. cbn [fold_left].
    rewrite (sub_details_without_tag (u "reasoning") _ (or_introl F)).
    exact (sub_details_without_tag (u "code_interpreter") _ (or_introl F)).
Qed.

Lemma removal_order_and_repeat_witness :
  let result := remove_details [u "reasoning"; u "code_interpreter"]
                  (text_of test_document) in
  remove_details [u "code_interpreter"; u "reasoning"] (text_of test_document)
  = result /\
  occurs_ci (u "<details") result = false /\
  remove_details [u "reasoning"; u "code_interpreter"] result = result.
Proof.
  apply (removal_order_and_repeat test_document).
  split; [vm_compute; reflexivity|].
  assert (R : well_formed_block (u "reasoning") test_reasoning_block).
  { repeat split; try (vm_compute; reflexivity). vm_compute. discriminate. }
  assert (K : well_formed_block (u "code_interpreter") test_code_block).
  { repeat split; try (vm_compute; reflexivity). vm_compute. discriminate. }
  repeat apply Forall_cons; try apply Forall_nil; try exact I.
  - split; [left; reflexivity|exact R].
  - split; [right; reflexivity|exact K].
Defined.

(** *** The order of the spans *)

Lemma append_block_fields st en bs m :
  map span_fields (append_block st en bs m)
  = map span_fields bs
    ++ (if nonblank m then [match_fields (st, en) m] else []).
Proof.
  unfold nonblank. destruct (strip (group1 m)) as [|c g] eqn:E.
  - rewrite (append_block_blank st en bs m E). simpl. rewrite app_nil_r. reflexivity.
  - rewrite append_block_nonblank by (rewrite E; discriminate).
    rewrite map_app. simpl. unfold match_fields, span_fields. simpl.
    rewrite E. reflexivity.
Qed.

Lemma scan_tags_fields content tags bs :
  map span_fields (scan_tags content bs tags)
  = map span_fields bs ++ map (match_fields tags) (kept_matches content tags).
Proof.
  unfold scan_tags, kept_matches.
  generalize (finditer (fst tags) (snd tags) content). intros ms. revert bs.
  induction ms as [|m ms IH]; intros bs.
  - simpl. rewrite app_nil_r. reflexivity.
  - simpl fold_left. rewrite IH, append_block_fields. simpl filter.
    destruct tags as [st en]. simpl fst. simpl snd.
    destruct (nonblank m); simpl; rewrite <- app_assoc; reflexivity.
Qed.

Lemma fold_scan_fields content : forall l bs,
  map span_fields (fold_left (scan_tags content) l bs)
  = map span_fields bs
    ++ flat_map (fun tags => map (match_fields tags) (kept_matches content tags)) l.
Proof.
  induction l as [|tags l IH]; intros bs.
  - simpl. rewrite app_nil_r. reflexivity.
  - simpl. rewrite IH, scan_tags_fields, <- app_assoc. reflexivity.
Qed.


Lemma laid_out_prefix x ms s : laid_out ms s -> laid_out ms (x ++ s).
Proof.
  intros H. destruct H as [s|pre m ms rest H]; [constructor|].
  rewrite app_assoc. constructor. exact H.
Qed.

Lemma laid_out_filter f ms s : laid_out ms s -> laid_out (filter f ms) s.
Proof.
  induction 1 as [s|pre m ms rest H IH]; [constructor|].
  simpl. destruct (f m).
  - constructor. exact IH.
  - rewrite app_assoc. apply laid_out_prefix. exact IH.
Qed.

Lemma laid_out_map_filter (f : re_match -> bool) ms s :
  laid_out (map group0 ms) s -> laid_out (map group0 (filter f ms)) s.
Proof.
  revert s. induction ms as [|m ms IH]; intros s H; [exact H|].
  simpl in H. inversion H as [|pre m' ms' rest Hr]; subst.
  simpl. destruct (f m).
  - simpl. constructor. exact (IH _ Hr).
  - rewrite app_assoc. apply laid_out_prefix. exact (IH _ Hr).
Qed.

(** The matches of a pattern lie in the text one after the other. *)
Lemma finditer_from_laid_out st en : forall n s k,
  length s <= n -> laid_out (map group0 (finditer_from st en k s)) s.
Proof.
  induction n as [|n IH]; intros s k Hn.
  - destruct s; [constructor|simpl in Hn; lia].
  - destruct s as [|c s]; [constructor|]. simpl in Hn.
    simpl finditer_from. destruct k as [|k].
    + destruct (match_tag_pattern st en (c :: s)) as [m|] eqn:Hm.
      * destruct (match_tag_pattern_split _ _ _ _ Hm)
          as (ms & me & post & Es & Eg & _).
        assert (Es' : c :: s = group0 m ++ post)
          by (rewrite Eg, <- !app_assoc; exact Es).
        clear Es. rename Es' into Es. simpl map.
        destruct (group0 m) as [|d t] eqn:Et.
        -- simpl in Es. subst post. simpl pred.
           change (c :: s) with ([] ++ [] ++ c :: s). constructor.
           apply (laid_out_prefix [c]). apply IH. lia.
        -- simpl in Es. inversion Es; subst d s. simpl pred.
           rewrite finditer_from_skip.
           change (c :: t ++ post) with ([] ++ (c :: t) ++ post). constructor.
           apply IH. rewrite length_app in Hn. lia.
      * apply (laid_out_prefix [c]). apply IH. lia.
    + apply (laid_out_prefix [c]). apply IH. lia.
Qed.

Lemma filter_flat_map {A B} (f : B -> bool) (g : A -> list B) : forall l,
  filter f (flat_map g l) = flat_map (fun a => filter f (g a)) l.
Proof.
  induction l as [|a l IH]; [reflexivity|].
  simpl. rewrite filter_app, IH. reflexivity.
Qed.

Lemma filter_true {A} (f : A -> bool) : forall l,
  (forall x, In x l -> f x = true) -> filter f l = l.
Proof.
  induction l as [|a l IH]; intros H; [reflexivity|].
  simpl. rewrite (H a (or_introl eq_refl)), IH; [reflexivity|].
  intros x Hx. apply H. right. exact Hx.
Qed.

Lemma filter_false {A} (f : A -> bool) : forall l,
  (forall x, In x l -> f x = false) -> filter f l = [].
Proof.
  induction l as [|a l IH]; intros H; [reflexivity|].
  simpl. rewrite (H a (or_introl eq_refl)). apply IH.
  intros x Hx. apply H. right. exact Hx.
Qed.

Lemma flat_map_nil {A B} (g : A -> list B) : forall l,
  (forall x, In x l -> g x = []) -> flat_map g l = [].
Proof.
  induction l as [|x l IH]; intros H; [reflexivity|].
  simpl. rewrite (H x (or_introl eq_refl)). apply IH.
  intros y Hy. apply H. right. exact Hy.
Qed.

Lemma flat_map_single {A B} (g : A -> list B) (a : A) : forall l,
  NoDup l -> In a l ->
  (forall x, In x l -> x <> a -> g x = []) ->
  flat_map g l = g a.
Proof.
  induction l as [|x l IH]; intros N Hin H; [contradiction|].
  inversion N as [|? ? Hx N']; subst. simpl. destruct Hin as [E|Hin].
  - subst x. rewrite flat_map_nil, app_nil_r; [reflexivity|].
    intros y Hy. apply H; [right; exact Hy|]. intros E. subst y. contradiction.
  - rewrite (H x (or_introl eq_refl)).
    + simpl. apply IH; [exact N'|exact Hin|].
      intros y Hy. apply H. right. exact Hy.
    + intros E. subst x. contradiction.
Qed.

(** The spans of one pair never overlap: their matched texts lie in the
    text one after the other, in the order of the blocks.  (Spans of two
    pairs can overlap.) *)
Theorem spans_of_a_pair_disjoint (content : text) (tags : text * text) :
  In tags DEFAULT_REASONING_TAGS ->
  laid_out
    (map original_match (filter (has_tags tags) (detect_reasoning_tags content)))
    content.
Proof.
  intros Ht.
  set (on_fields := fun f : text * text * text * text =>
         if tags_eq_dec (fst (fst (fst f)), snd (fst (fst f))) tags
         then true else false).
  assert (E1 : map span_fields (filter (has_tags tags) (detect_reasoning_tags content))
               = filter on_fields (map span_fields (detect_reasoning_tags content))).
  { generalize (detect_reasoning_tags content). intros bs.
    induction bs as [|b bs IH]; [reflexivity|].
    assert (Eb : on_fields (span_fields b) = has_tags tags b) by reflexivity.
    cbn [filter map]. rewrite Eb.
    destruct (has_tags tags b); cbn [map]; rewrite IH; reflexivity. }
  assert (E2 : filter on_fields (map span_fields (detect_reasoning_tags content))
               = map (match_fields tags) (kept_matches content tags)).
  { unfold detect_reasoning_tags. rewrite fold_scan_fields. cbn [map app].
    rewrite filter_flat_map.
    rewrite (flat_map_single _ tags _ table_nodup Ht).
    - apply filter_true. intros x Hx. apply in_map_iff in Hx.
      destruct Hx as (m & <- & _). unfold on_fields, match_fields.
      cbn [fst snd]. rewrite <- surjective_pairing.
      destruct (tags_eq_dec tags tags); [reflexivity|contradiction].
    - intros t _ Hne. apply filter_false. intros x Hx. apply in_map_iff in Hx.
      destruct Hx as (m & <- & _). unfold on_fields, match_fields.
      cbn [fst snd]. rewrite <- surjective_pairing.
      destruct (tags_eq_dec t tags); [contradiction|reflexivity]. }
  assert (E3 : map original_match
                 (filter (has_tags tags) (detect_reasoning_tags content))
               = map group0 (kept_matches content tags)).
  { rewrite <- (map_map span_fields (fun f => snd f)).
    rewrite E1, E2, map_map. reflexivity. }
  rewrite E3. unfold kept_matches. apply laid_out_map_filter.
  apply (finditer_from_laid_out _ _ (length content)). lia.
Qed.

Lemma spans_of_a_pair_disjoint_witness :
  laid_out
    (map original_match
       (filter (has_tags (u "<think>", u "</think>"))
          (detect_reasoning_tags (u "<think>a</think> and <think>b</think>"))))
    (u "<think>a</think> and <think>b</think>").
Proof.
  apply (spans_of_a_pair_disjoint (u "<think>a</think> and <think>b</think>")
           (u "<think>", u "</think>")).
  left. reflexivity.
Defined.

(** *** The reading loop *)

Lemma last_is_empty_snoc lines line :
  last_is_empty (lines ++ [line]) = text_eqb line [].
Proof.
  unfold last_is_empty. rewrite last_last.
  destruct lines; reflexivity.
Qed.

Lemma last_is_empty_split lines :
  last_is_empty lines = true -> exists body, lines = body ++ [[]].
Proof.
  destruct lines as [|l lines] using rev_ind; [discriminate|].
  rewrite last_is_empty_snoc. intros H. apply text_eqb_eq in H. subst l.
  exists lines. reflexivity.
Qed.

Lemma no_empty_pair_snoc : forall lines line,
  no_empty_pair (lines ++ [line])
  = no_empty_pair lines && negb (text_eqb line [] && last_is_empty lines).
Proof.
  induction lines as [|a lines IH]; intros line.
  - simpl. rewrite andb_false_r. reflexivity.
  - destruct lines as [|b lines].
    + simpl. destruct (text_eqb a []), (text_eqb line []); reflexivity.
    + change ((a :: b :: lines) ++ [line]) with (a :: (b :: lines) ++ [line]).
      change (no_empty_pair (a :: (b :: lines) ++ [line]))
        with (negb (text_eqb a [] && text_eqb b [])
              && no_empty_pair ((b :: lines) ++ [line])).
      rewrite IH.
      change (no_empty_pair (a :: b :: lines))
        with (negb (text_eqb a [] && text_eqb b []) && no_empty_pair (b :: lines)).
      assert (L : last_is_empty (a :: b :: lines) = last_is_empty (b :: lines))
        by reflexivity.
      rewrite L, andb_assoc. reflexivity.
Qed.

Lemma no_empty_pair_app_l : forall ys xs,
  no_empty_pair (xs ++ ys) = true -> no_empty_pair xs = true.
Proof.
  induction ys as [|y ys IH] using rev_ind; intros xs H.
  - rewrite app_nil_r in H. exact H.
  - rewrite app_assoc, no_empty_pair_snoc in H.
    apply andb_prop in H. apply IH. exact (proj1 H).
Qed.

(** Lines that are neither a quit line nor the second of two empty lines
    are collected. *)
Lemma read_lines_typed : forall body lines rest,
  no_quit_line body = true ->
  no_empty_pair (lines ++ body) = true ->
  read_lines lines (map Typed body ++ rest) = read_lines (lines ++ body) rest.
Proof.
  induction body as [|l body IH]; intros lines rest Hq Hp.
  - rewrite app_nil_r. reflexivity.
  - cbn [no_quit_line forallb] in Hq. apply andb_prop in Hq. destruct Hq as [Hl Hq].
    change (lines ++ l :: body) with (lines ++ [l] ++ body) in *.
    rewrite app_assoc in *.
    pose proof (no_empty_pair_app_l _ _ Hp) as Hs.
    rewrite no_empty_pair_snoc in Hs. apply andb_prop in Hs.
    destruct Hs as [_ Hs]. apply negb_true_iff in Hs.
    cbn [map app read_lines]. rewrite Hs.
    apply negb_true_iff in Hl. rewrite Hl.
    apply IH; assumption.
Qed.

Lemma read_lines_entered : forall input lines0 lines rest,
  read_lines lines0 input = Entered lines rest ->
  exists body,
    lines = lines0 ++ body /\
    input = map Typed body ++ Typed [] :: rest /\
    no_quit_line body = true /\
    last_is_empty lines = true /\
    (no_empty_pair lines0 = true -> no_empty_pair lines = true).
Proof.
  induction input as [|e input IH]; intros lines0 lines rest H; [discriminate|].
  destruct e as [line|]; [|discriminate]. cbn [read_lines] in H.
  destruct (text_eqb line [] && last_is_empty lines0) eqn:Eb.
  - inversion H; subst lines rest. apply andb_prop in Eb. destruct Eb as [El Ee].
    apply text_eqb_eq in El. subst line.
    exists []. rewrite app_nil_r. repeat split; auto.
  - destruct (lower_is_quit line) eqn:Eq; [discriminate|].
    destruct (IH _ _ _ H) as (body & E1 & E2 & Hq & Hl & Hp).
    exists (line :: body). rewrite <- app_assoc in E1.
    split; [exact E1|]. split; [rewrite E2; reflexivity|].
    split; [|split].
    + cbn [no_quit_line forallb]. rewrite Eq. exact Hq.
    + exact Hl.
    + intros H0. apply Hp. rewrite no_empty_pair_snoc, H0, Eb.
      reflexivity.
Qed.

(** The inner loop of [interactive_demo] hands lines over exactly when two
    empty lines are typed one after the other, before any quit line, any
    interrupt and the end of the input: the lines handed over are those
    typed before, which hold no quit line and no two empty lines in a row
    and do not end with an empty line, followed by the first of the two
    empty lines; the input after the two empty lines is left for the next
    round. *)
Theorem entry_ends_at_two_empty_lines (input : list console_event)
  (lines : list text) (rest : list console_event) :
  read_lines [] input = Entered lines rest <->
  exists body,
    lines = body ++ [[]] /\
    input = map Typed body ++ Typed [] :: Typed [] :: rest /\
    no_quit_line body = true /\
    no_empty_pair (body ++ [[]]) = true.
Proof.
  split.
  - intros H. destruct (read_lines_entered _ _ _ _ H) as (all & E1 & E2 & Hq & Hl & Hp).
    simpl in E1. subst all.
    destruct (last_is_empty_split _ Hl) as (body & E). subst lines.
    exists body. repeat split.
    + rewrite E2, map_app, <- app_assoc. reflexivity.
    + unfold no_quit_line in *. rewrite forallb_app in Hq.
      apply andb_prop in Hq. exact (proj1 Hq).
    + apply Hp. reflexivity.
  - intros (body & E1 & E2 & Hq & Hp). subst lines input.
    change (map Typed body ++ Typed [] :: Typed [] :: rest)
      with (map Typed body ++ map Typed [[]] ++ Typed [] :: rest).
    rewrite app_assoc, <- map_app.
    rewrite read_lines_typed.
    + simpl app. cbn [read_lines]. rewrite last_is_empty_snoc. reflexivity.
    + unfold no_quit_line. rewrite forallb_app. unfold no_quit_line in Hq.
      rewrite Hq. reflexivity.
    + exact Hp.
Qed.

(** At any point of an entry, a quit line, in any letter case, and an
    interrupt make [interactive_demo] return, and at the end of the input
    the [EOFError] of [input()] leaves it: in the three cases the lines
    typed so far are dropped and nothing is handed over. *)
Theorem unfinished_entry_is_dropped (body : list text)
  (rest : list console_event) :
  no_quit_line body = true ->
  no_empty_pair body = true ->
  (forall line, lower_is_quit line = true ->
     read_lines [] (map Typed body ++ Typed line :: rest) = Quit) /\
  read_lines [] (map Typed body ++ Interrupt :: rest) = Exiting /\
  read_lines [] (map Typed body) = EndOfInput.
Proof.
  intros Hq Hp. repeat split.
  - intros line Hl. rewrite read_lines_typed by assumption.
    cbn [read_lines]. destruct line as [|c line]; [discriminate|].
    rewrite Hl. reflexivity.
  - rewrite read_lines_typed by assumption. reflexivity.
  - rewrite <- (app_nil_r (map Typed body)).
    rewrite read_lines_typed by assumption. reflexivity.
Qed.

Lemma unfinished_entry_is_dropped_witness :
  (forall line, lower_is_quit line = true ->
     read_lines [] (map Typed [u "<think>a</think>"; []; u "b"]
                    ++ Typed line :: [Typed (u "c")]) = Quit) /\
  read_lines [] (map Typed [u "<think>a</think>"; []; u "b"]
                 ++ Interrupt :: [Typed (u "c")]) = Exiting /\
  read_lines [] (map Typed [u "<think>a</think>"; []; u "b"]) = EndOfInput.
Proof.
  apply (unfinished_entry_is_dropped [u "<think>a</think>"; []; u "b"]
           [Typed (u "c")]); reflexivity.
Defined.

Lemma blank_line_join : forall body,
  forallb isspace (join nl body) = forallb blank_line body.
Proof.
  induction body as [|l body IH]; [reflexivity|].
  destruct body as [|l' body].
  - simpl. rewrite andb_true_r. reflexivity.
  - change (join nl (l :: l' :: body)) with (l ++ nl ++ join nl (l' :: body)).
    rewrite !forallb_app, IH. reflexivity.
Qed.

(** The content of an entry is the lines typed before the two empty lines,
    joined by newlines, and the entry is skipped without being processed
    exactly when each of these lines holds nothing but whitespace. *)
Theorem blank_entry_is_skipped (body : list text) :
  entered_content (body ++ [[]]) = join nl body /\
  (is_processed (entered_content (body ++ [[]])) = false
   <-> forallb blank_line body = true).
Proof.
  assert (E : entered_content (body ++ [[]]) = join nl body).
  { unfold entered_content. rewrite removelast_last. reflexivity. }
  split; [exact E|]. rewrite E, <- blank_line_join. unfold is_processed.
  split; intros H.
  - apply visible_nil_spaces. rewrite <- visible_strip.
    destruct (strip (join nl body)); [reflexivity|discriminate].
  - rewrite strip_spaces by exact H. reflexivity.
Qed.
